(** * pdfcraft: office documents to PDF through a shared conversion engine

    Shallow embedding of the three processors

      - [src/lib/pdf/processors/pptx-to-pdf.ts]  (PowerPoint)
      - the Word processor                        (Word)
      - [src/lib/pdf/processors/rtf-to-pdf.ts]   (RTF)

    Each file holds the same module-level pair [converterPromise] /
    [converterInstance], the same [getConverter], and a [process] method that
    differs only in its accepted extensions, its file-name pattern and its
    messages.  The embedding keeps one copy of the shared text, indexed by a
    [Format].

    JavaScript runs every piece of code between two [await]s without
    interruption.  The embedding therefore has one transition per such piece,
    and a schedule (a list of actions) chooses the order in which calls are
    issued, the engine reports, and suspended calls are resumed. *)

From Stdlib Require Import String Ascii List Bool Arith Lia.
From Stdlib Require Import QArith Qminmax Lqa Sorted.
From Stdlib Require Import Decimal DecimalString.
From stdpp Require Import base list.
Import ListNotations.

Open Scope string_scope.

(** ** JavaScript strings

    Strings are sequences of code units; the embedding keeps the code units
    below 256.  [toLowerCase] and the case folding of the [i] flag act on the
    ASCII letters.  (Outside ASCII the only code units whose lower case is an
    ASCII letter are U+212A and U+0130, giving [k] and [i]; neither letter
    occurs in an extension handled here.) *)

Definition toLowerCaseChar (c : ascii) : ascii :=
  let n := nat_of_ascii c in
  if (65 <=? n)%nat && (n <=? 90)%nat then ascii_of_nat (n + 32) else c.

Fixpoint toLowerCase (s : string) : string :=
  match s with
  | EmptyString => EmptyString
  | String c s' => String (toLowerCaseChar c) (toLowerCase s')
  end.

(** [s.split(sep)] for a one-character separator: never the empty array. *)
Fixpoint split (sep : ascii) (s : string) : list string :=
  match s with
  | EmptyString => [EmptyString]
  | String c s' =>
      if Ascii.eqb c sep then EmptyString :: split sep s'
      else match split sep s' with
           | seg :: segs => String c seg :: segs
           | [] => [String c EmptyString]
           end
  end.

(** [a.pop()]: the last element, [undefined] ([None]) on the empty array. *)
Definition pop {A : Type} (l : list A) : option A := last l.

(** [a.includes(x)] on an array of strings. *)
Definition includes (l : list string) (x : string) : bool :=
  existsb (String.eqb x) l.

(** [`${n}`] for a length. *)
Definition numberToString (n : nat) : string :=
  NilZero.string_of_uint (Nat.to_uint n).

(** ** Regular expressions

    The fragment used by the three file-name patterns, all of them with the
    [i] flag and none with [g] or [m]. *)

Inductive RegExp : Type :=
| Eps
| Chr (c : ascii)
| Cat (r1 r2 : RegExp)
| Alt (r1 r2 : RegExp)
| Opt (r : RegExp)
| Eos.

(** Canonicalize of the [i] flag (no [u] flag): the upper case of the code
    unit. *)
Definition canonicalize (c : ascii) : ascii :=
  let n := nat_of_ascii c in
  if (97 <=? n)%nat && (n <=? 122)%nat then ascii_of_nat (n - 32) else c.

(** Backtracking matcher: [exec r s k] matches [r] at the start of [s] and
    hands what is left to the continuation [k]; alternatives are tried left
    to right and [r?] tries [r] first. *)
Fixpoint exec (r : RegExp) (s : string) (k : string -> option string)
  : option string :=
  match r with
  | Eps => k s
  | Chr c =>
      match s with
      | String a s' =>
          if Ascii.eqb (canonicalize a) (canonicalize c) then k s' else None
      | EmptyString => None
      end
  | Cat r1 r2 => exec r1 s (fun s' => exec r2 s' k)
  | Alt r1 r2 =>
      match exec r1 s k with
      | Some x => Some x
      | None => exec r2 s k
      end
  | Opt r1 =>
      match exec r1 s k with
      | Some x => Some x
      | None => k s
      end
  | Eos =>
      match s with
      | EmptyString => k EmptyString
      | String _ _ => None
      end
  end.

(** [s.replace(r, '')] for a pattern without the [g] flag: the leftmost match
    is removed, and [s] is returned as it is when there is none. *)
Fixpoint replace (r : RegExp) (s : string) : string :=
  match exec r s Some with
  | Some rest => rest
  | None =>
      match s with
      | EmptyString => EmptyString
      | String c s' => String c (replace r s')
      end
  end.

(** A literal run of characters. *)
Fixpoint lit (s : string) : RegExp :=
  match s with
  | EmptyString => Eps
  | String c s' => Cat (Chr c) (lit s')
  end.

(** ** The three formats *)

Inductive Format : Type := PPTX | Word | RTF.

(** [validExts] of each [process]; the RTF processor compares with ['rtf']
    directly. *)
Definition validExts (fmt : Format) : list string :=
  match fmt with
  | PPTX => ["pptx"; "ppt"; "odp"]
  | Word => ["docx"; "doc"; "odt"; "rtf"]
  | RTF => ["rtf"]
  end.

(** The pattern given to [file.name.replace]:
    [/\.(pptx?|odp)$/i], [/\.(docx?|odt|rtf)$/i] and [/\.rtf$/i]. *)
Definition extPattern (fmt : Format) : RegExp :=
  match fmt with
  | PPTX =>
      Cat (Chr ".") (Cat (Alt (Cat (lit "ppt") (Opt (Chr "x"))) (lit "odp")) Eos)
  | Word =>
      Cat (Chr ".")
          (Cat (Alt (Cat (lit "doc") (Opt (Chr "x"))) (Alt (lit "odt") (lit "rtf")))
               Eos)
  | RTF => Cat (Chr ".") (Cat (lit "rtf") Eos)
  end.

Definition wrongCountMessage (fmt : Format) : string :=
  match fmt with
  | PPTX => "Please provide exactly one PowerPoint presentation."
  | Word => "Please provide exactly one Word document."
  | RTF => "Please provide exactly one RTF file."
  end.

Definition wrongTypeMessage (fmt : Format) : string :=
  match fmt with
  | PPTX => "Invalid file type. Please upload .pptx, .ppt, or .odp."
  | Word => "Invalid file type. Please upload .docx, .doc, .odt, or .rtf."
  | RTF => "Invalid file type. Please upload an .rtf file."
  end.

Definition convertingMessage (fmt : Format) : string :=
  match fmt with
  | PPTX => "Converting PowerPoint to PDF..."
  | Word => "Converting Word document to PDF..."
  | RTF => "Converting RTF to PDF..."
  end.

Definition failedMessage (fmt : Format) : string :=
  match fmt with
  | PPTX => "Failed to convert PowerPoint to PDF."
  | Word => "Failed to convert Word document to PDF."
  | RTF => "Failed to convert RTF to PDF."
  end.

Definition loadingMessage : string :=
  "Loading conversion engine (first time may take 1-2 minutes)...".

Definition cancelledMessage : string := "Processing was cancelled.".

Definition completeMessage : string := "Conversion complete!".

(** ** Files and results *)

(** A [File]: its name and MIME type; the content is opaque to the
    processors. *)
Record File : Type := mkFile { name : string; type : string; content : string }.

Definition Blob : Type := string.

(** [file.name.split('.').pop()?.toLowerCase() || ''] *)
Definition extensionOf (f : File) : string :=
  match pop (split "." (name f)) with
  | Some seg => toLowerCase seg
  | None => EmptyString
  end.

(** [file.name.replace(pattern, '')] followed by [`${baseName}.pdf`]. *)
Definition baseName (fmt : Format) (f : File) : string :=
  replace (extPattern fmt) (name f).

Definition suggestedName (fmt : Format) (f : File) : string :=
  baseName fmt f ++ ".pdf".

(** Modelled from the spec: [PDFErrorCode] ([@/types/pdf]) is not part of
    the sources at hand; these are the four codes the processors use, which
    the spec lists as the recognized error codes. *)
Inductive PDFErrorCode : Type :=
| INVALID_OPTIONS
| FILE_TYPE_INVALID
| PROCESSING_CANCELLED
| PROCESSING_FAILED.

(** Modelled from the spec: [ProcessOutput] ([@/types/pdf]) is not part of
    the sources at hand; the result is
    "Success { blob, suggestedFileName, metadata: { format } } |
    Error { code, message, detail }", never both. *)
Inductive ProcessOutput : Type :=
| Success (blob : Blob) (suggestedFileName : string) (format : string)
| Error (code : PDFErrorCode) (message : string) (detail : option string).

(** A value that was thrown, or the reason of a rejected promise: an
    [Error] instance with its [message], or any other value. *)
Inductive Thrown : Type :=
| JsError (message : string)
| JsOther (shown : string).

(** [error instanceof Error ? error.message : 'Unknown error'] *)
Definition detailOf (e : Thrown) : string :=
  match e with
  | JsError m => m
  | JsOther _ => "Unknown error"
  end.

(** [`Received: ${file.type || file.name}`] *)
Definition receivedDetail (f : File) : string :=
  "Received: " ++ (if String.eqb (type f) EmptyString then name f else type f).

(** [`Received ${files.length} file(s).`] *)
Definition countDetail (files : list File) : string :=
  "Received " ++ numberToString (length files) ++ " file(s).".

(** ** Progress events and the base processor *)

(** One call of a progress callback.  Percentages are JavaScript numbers;
    the embedding takes them as rationals, with [0.8] standing for the
    literal of the same name. *)
Record ProgressEvent : Type := mkProgress { percent : Q; message : string }.

(** A settled promise. *)
Inductive Settled : Type :=
| Fulfilled
| Rejected (reason : Thrown).

(** What one call of the engine's [initialize] does: the progress
    notifications it reports, in order, and how its promise then settles. *)
Record InitBehaviour : Type :=
  mkInit { reports : list ProgressEvent; outcome : Settled }.

(** Modelled from the spec: the conversion engine ([@/lib/libreoffice]) is
    not part of the sources at hand; it is "an opaque capability with
    [initialize], [isReady], [convertToPdf]".  Its behaviour is a parameter
    of the embedding:

    - [script] gives the behaviour of each future call of [initialize];
    - [convertToPdf] gives the blob or the failure of a conversion;
    - [ready] is what [isReady()] answers: it becomes [true] when an
      [initialize] resolves;
    - [initializeCalls] counts the calls of [initialize]. *)
Record Engine : Type := mkEngine {
  ready : bool;
  initializeCalls : nat;
  script : list InitBehaviour;
  convertToPdf : File -> Blob + Thrown
}.

(** What [initialize] does when the script says nothing: it resolves. *)
Definition defaultInit : InitBehaviour := mkInit [] Fulfilled.

(** The value of [getLibreOfficeConverter()]. *)
Inductive EngineRef : Type := LibreOfficeConverter.

(** ** Module state

    [converterPromise] holds a reference to a promise, so promises live in a
    heap.  The promise made in [getConverter] is that of an async arrow
    function, which is suspended at [await import(...)], then at
    [await converterInstance.initialize(...)], and then settles.  The arrow
    function closes over the [onProgress] of the call that created it: the
    [owner].  The import is that of a module of the bundle and is taken to
    resolve, with [getLibreOfficeConverter] giving the engine. *)

Inductive Iife : Type :=
| AwaitImport (owner : nat)
| AwaitInitialize (owner : nat) (pending : list ProgressEvent) (out : Settled)
| IifeSettled (out : Settled).

Record Module : Type := mkModule {
  converterPromise : option nat;
  converterInstance : option EngineRef;
  promises : list Iife;
  engine : Engine
}.

(** ** Calls in flight *)

(** Where a call of [getConverter] stands once its first piece has run:
    it returned [converterInstance] on the first line, or it is suspended at
    [await converterPromise]. *)
Inductive Acquisition : Type :=
| ReturnedAtOnce (c : option EngineRef)
| Awaits (p : nat).

Inductive GetConverterResult : Type :=
| Returned (c : option EngineRef)
| Threw (e : Thrown).

(** A task is a call of [getConverter] made directly (with a callback that
    records what it is given), or a call of [process] on a processor of its
    own, as [pptxToPDF], [wordToPDF] and [rtfToPDF] make it. *)
Inductive Caller : Type :=
| Direct
| Processor (fmt : Format) (files : list File).

(** [files[0]]; it is only read when [files.length] is 1. *)
Definition firstFile (files : list File) : File :=
  hd (mkFile EmptyString EmptyString EmptyString) files.

(** Where a task stands: suspended at [await getConverter(...)] (or, for a
    direct call, inside [getConverter]); suspended at
    [await converter.convertToPdf(file)]; or finished with its result. *)
Inductive Pc : Type :=
| InGetConverter (a : Acquisition)
| InConvertToPdf
| GetFinished (r : GetConverterResult)
| ProcessFinished (out : ProcessOutput).

(** [sink] lists the calls received by the task's [onProgress]. *)
Record Task : Type := mkTask {
  caller : Caller;
  pc : Pc;
  cancelled : bool;
  sink : list ProgressEvent
}.

(** The module state shared by all calls, and the calls made so far, in the
    order they were made. *)
Record World : Type := mkWorld { shared : Module; tasks : list Task }.

(** Modelled from the spec: [BasePDFProcessor] ([../processor]) is not part
    of the sources at hand.  Of its members the processors use
    [updateProgress], which has "no side effects beyond invoking the
    caller's progress sink"; [checkCancelled], which reads the operation's
    cancellation flag; [reset], which gives the operation a fresh state; and
    [createErrorOutput] / [createSuccessOutput], which build the two result
    variants. *)
Definition updateProgress (p : Q) (m : string) (t : Task) : Task :=
  mkTask (caller t) (pc t) (cancelled t) (sink t ++ [mkProgress p m]).

Definition checkCancelled (t : Task) : bool := cancelled t.

Definition cancel (t : Task) : Task :=
  mkTask (caller t) (pc t) true (sink t).

Definition createErrorOutput (c : PDFErrorCode) (m : string) (d : option string)
  : ProcessOutput := Error c m d.

Definition createSuccessOutput (b : Blob) (n : string) : ProcessOutput :=
  Success b n "pdf".

Definition goto (l : Pc) (t : Task) : Task :=
  mkTask (caller t) l (cancelled t) (sink t).

(** The callback a task hands to [getConverter]: the processors pass
    [(percent, message) => this.updateProgress(Math.min(percent * 0.8, 80), message)]. *)
Definition onSubProgress (ev : ProgressEvent) (t : Task) : Task :=
  match caller t with
  | Direct => updateProgress (percent ev) (message ev) t
  | Processor _ _ =>
      updateProgress (Qmin (percent ev * 0.8) 80) (message ev) t
  end.

(** ** [getConverter] up to its first [await] *)

Definition instanceReady (m : Module) : bool :=
  match converterInstance m with
  | Some _ => ready (engine m)
  | None => false
  end.

Definition getConverter (owner : nat) (m : Module) : Module * Acquisition :=
  if instanceReady m then (m, ReturnedAtOnce (converterInstance m))
  else
    match converterPromise m with
    | Some p => (m, Awaits p)
    | None =>
        let p := length (promises m) in
        (mkModule (Some p) (converterInstance m)
                  (promises m ++ [AwaitImport owner]) (engine m),
         Awaits p)
    end.

(** What the [await] of a suspended call gives, once it gives anything. *)
Definition acquired (a : Acquisition) (m : Module) : option GetConverterResult :=
  match a with
  | ReturnedAtOnce c => Some (Returned c)
  | Awaits p =>
      match promises m !! p with
      | Some (IifeSettled Fulfilled) => Some (Returned (converterInstance m))
      | Some (IifeSettled (Rejected e)) => Some (Threw e)
      | _ => None
      end
  end.

(** ** [process] up to its first [await] *)

Definition process (fmt : Format) (files : list File) (w : World) : World :=
  let me := length (tasks w) in
  let this := mkTask (Processor fmt files) (InGetConverter (Awaits 0)) false [] in
  if negb (length files =? 1)%nat then
    mkWorld (shared w)
      (tasks w ++
         [goto (ProcessFinished
                  (createErrorOutput INVALID_OPTIONS (wrongCountMessage fmt)
                     (Some (countDetail files)))) this])
  else
    let file := firstFile files in
    if negb (includes (validExts fmt) (extensionOf file)) then
      mkWorld (shared w)
        (tasks w ++
           [goto (ProcessFinished
                    (createErrorOutput FILE_TYPE_INVALID (wrongTypeMessage fmt)
                       (Some (receivedDetail file)))) this])
    else
      let this := updateProgress 5 loadingMessage this in
      let '(m, a) := getConverter me (shared w) in
      mkWorld m (tasks w ++ [goto (InGetConverter a) this]).

Definition callGetConverter (w : World) : World :=
  let me := length (tasks w) in
  let '(m, a) := getConverter me (shared w) in
  mkWorld m (tasks w ++ [mkTask Direct (InGetConverter a) false []]).

(** ** The pieces that run later *)

(** [await import(...)] resolves: the instance is stored and [initialize]
    is called. *)
Definition importResolves (p : nat) (w : World) : World :=
  let m := shared w in
  match promises m !! p with
  | Some (AwaitImport owner) =>
      let e := engine m in
      let b := hd defaultInit (script e) in
      mkWorld
        (mkModule (converterPromise m) (Some LibreOfficeConverter)
           (<[p := AwaitInitialize owner (reports b) (outcome b)]> (promises m))
           (mkEngine (ready e) (S (initializeCalls e)) (tl (script e))
              (convertToPdf e)))
        (tasks w)
  | _ => w
  end.

(** The engine calls the callback it was given by [initialize]. *)
Definition engineReports (p : nat) (w : World) : World :=
  let m := shared w in
  match promises m !! p with
  | Some (AwaitInitialize owner (ev :: rest) out) =>
      mkWorld
        (mkModule (converterPromise m) (converterInstance m)
           (<[p := AwaitInitialize owner rest out]> (promises m)) (engine m))
        (match tasks w !! owner with
         | Some t => <[owner := onSubProgress ev t]> (tasks w)
         | None => tasks w
         end)
  | _ => w
  end.

(** [initialize] settles, and with it the promise of the arrow function. *)
Definition initializeSettles (p : nat) (w : World) : World :=
  let m := shared w in
  match promises m !! p with
  | Some (AwaitInitialize owner [] out) =>
      let e := engine m in
      mkWorld
        (mkModule (converterPromise m) (converterInstance m)
           (<[p := IifeSettled out]> (promises m))
           (mkEngine
              (match out with Fulfilled => true | Rejected _ => ready e end)
              (initializeCalls e) (script e) (convertToPdf e)))
        (tasks w)
  | _ => w
  end.

Definition nullConverterError : Thrown :=
  JsError "Cannot read properties of null (reading 'convertToPdf')".

Definition processingFailed (fmt : Format) (e : Thrown) : ProcessOutput :=
  createErrorOutput PROCESSING_FAILED (failedMessage fmt) (Some (detailOf e)).

Definition processingCancelled : ProcessOutput :=
  createErrorOutput PROCESSING_CANCELLED cancelledMessage None.

(** [process] after [await getConverter(...)]. *)
Definition afterGetConverter (fmt : Format) (r : GetConverterResult) (t : Task)
  : Task :=
  match r with
  | Threw e => goto (ProcessFinished (processingFailed fmt e)) t
  | Returned c =>
      if checkCancelled t then goto (ProcessFinished processingCancelled) t
      else
        let t := updateProgress 85 (convertingMessage fmt) t in
        match c with
        | Some _ => goto InConvertToPdf t
        | None => goto (ProcessFinished (processingFailed fmt nullConverterError)) t
        end
  end.

(** [process] after [await converter.convertToPdf(file)]. *)
Definition afterConvertToPdf (fmt : Format) (file : File) (r : Blob + Thrown)
  (t : Task) : Task :=
  match r with
  | inr e => goto (ProcessFinished (processingFailed fmt e)) t
  | inl pdfBlob =>
      if checkCancelled t then goto (ProcessFinished processingCancelled) t
      else
        let t := updateProgress 100 completeMessage t in
        goto (ProcessFinished
                (createSuccessOutput pdfBlob (suggestedName fmt file))) t
  end.

Definition resumeTask (m : Module) (t : Task) : Task :=
  match pc t with
  | InGetConverter a =>
      match acquired a m with
      | Some r =>
          match caller t with
          | Direct => goto (GetFinished r) t
          | Processor fmt _ => afterGetConverter fmt r t
          end
      | None => t
      end
  | InConvertToPdf =>
      match caller t with
      | Processor fmt files =>
          let file := firstFile files in
          afterConvertToPdf fmt file (convertToPdf (engine m) file) t
      | Direct => t
      end
  | _ => t
  end.

Definition resume (i : nat) (w : World) : World :=
  match tasks w !! i with
  | Some t => mkWorld (shared w) (<[i := resumeTask (shared w) t]> (tasks w))
  | None => w
  end.

Definition requestCancel (i : nat) (w : World) : World :=
  match tasks w !! i with
  | Some t => mkWorld (shared w) (<[i := cancel t]> (tasks w))
  | None => w
  end.

(** ** Schedules *)

Inductive Action : Type :=
| CallGetConverter
| CallProcess (fmt : Format) (files : list File)
| Cancel (i : nat)
| ImportResolves (p : nat)
| EngineReports (p : nat)
| InitializeSettles (p : nat)
| Resume (i : nat).

Definition step (a : Action) (w : World) : World :=
  match a with
  | CallGetConverter => callGetConverter w
  | CallProcess fmt files => process fmt files w
  | Cancel i => requestCancel i w
  | ImportResolves p => importResolves p w
  | EngineReports p => engineReports p w
  | InitializeSettles p => initializeSettles p w
  | Resume i => resume i w
  end.

Fixpoint run (sch : list Action) (w : World) : World :=
  match sch with
  | [] => w
  | a :: sch' => run sch' (step a w)
  end.

(** Nothing requested yet: both module variables are [null]. *)
Definition initial (scr : list InitBehaviour) (conv : File -> Blob + Thrown)
  : World :=
  mkWorld (mkModule None None [] (mkEngine false 0 scr conv)) [].

(** The schedule that lets everything in flight come to its end: every
    import resolves, every [initialize] reports and settles, and every task
    is resumed past both of its [await]s. *)
Definition reportBound (m : Module) : nat :=
  list_sum (map (fun b => length (reports b)) (script (engine m))) +
  list_sum (map (fun i => match i with
                          | AwaitInitialize _ pend _ => length pend
                          | _ => 0%nat
                          end) (promises m)).

Definition settleAll (m : Module) : list Action :=
  flat_map (fun p => ImportResolves p ::
                     repeat (EngineReports p) (reportBound m) ++
                     [InitializeSettles p])
           (seq 0 (length (promises m))).

Definition resumeAll (n : nat) : list Action :=
  flat_map (fun i => [Resume i; Resume i]) (seq 0 n).

Definition drain (w : World) : World :=
  run (settleAll (shared w) ++ resumeAll (length (tasks w))) w.

(** ** Observations *)

Definition percents (t : Task) : list Q := map percent (sink t).

Definition resultOf (t : Task) : option ProcessOutput :=
  match pc t with
  | ProcessFinished out => Some out
  | _ => None
  end.


(** ** Dots in names and patterns *)

(** No ['.'] among the code units of [s]. *)
Fixpoint nodot (s : string) : bool :=
  match s with
  | EmptyString => true
  | String c s' => negb (Ascii.eqb c ".") && nodot s'
  end.

(** No literal ['.'] in [r]. *)
Fixpoint dotless (r : RegExp) : bool :=
  match r with
  | Eps | Eos => true
  | Chr c => negb (Ascii.eqb c ".")
  | Cat r1 r2 | Alt r1 r2 => dotless r1 && dotless r2
  | Opt r1 => dotless r1
  end.

(** What each pattern has between [\.] and [$]. *)
Definition extBody (fmt : Format) : RegExp :=
  match fmt with
  | PPTX => Alt (Cat (lit "ppt") (Opt (Chr "x"))) (lit "odp")
  | Word => Alt (Cat (lit "doc") (Opt (Chr "x"))) (Alt (lit "odt") (lit "rtf"))
  | RTF => lit "rtf"
  end.

(** * The life of the shared engine

    Reachable module states, as the spec names them: [Unrequested];
    initializing, which the code passes in two pieces ([Loading] while the
    import is pending, [Initializing] while [initialize] runs); and
    [Finished], which is Ready or Failed according to the outcome of the one
    [initialize] call.  [o] is the task whose [getConverter] call made the
    promise. *)

Inductive Phase : Type :=
| Unrequested
| Loading (o : nat)
| Initializing (o : nat) (done pend : list ProgressEvent)
| Finished (o : nat).

Definition fulfilled (s : Settled) : bool :=
  match s with Fulfilled => true | Rejected _ => false end.

(** What a [getConverter] call gives once the promise has settled. *)
Definition resultOfOutcome (s : Settled) : GetConverterResult :=
  match s with
  | Fulfilled => Returned (Some LibreOfficeConverter)
  | Rejected e => Threw e
  end.

Definition firstInit (scr : list InitBehaviour) : InitBehaviour :=
  hd defaultInit scr.

Definition moduleAt (scr : list InitBehaviour) (conv : File -> Blob + Thrown)
  (ph : Phase) : Module :=
  match ph with
  | Unrequested => mkModule None None [] (mkEngine false 0 scr conv)
  | Loading o =>
      mkModule (Some 0%nat) None [AwaitImport o] (mkEngine false 0 scr conv)
  | Initializing o _ pend =>
      mkModule (Some 0%nat) (Some LibreOfficeConverter)
        [AwaitInitialize o pend (outcome (firstInit scr))]
        (mkEngine false 1 (tl scr) conv)
  | Finished o =>
      mkModule (Some 0%nat) (Some LibreOfficeConverter)
        [IifeSettled (outcome (firstInit scr))]
        (mkEngine (fulfilled (outcome (firstInit scr))) 1 (tl scr) conv)
  end.

Definition ownerOf (ph : Phase) : option nat :=
  match ph with
  | Unrequested => None
  | Loading o | Initializing o _ _ | Finished o => Some o
  end.

(** The notifications the engine has reported so far. *)
Definition delivered (scr : list InitBehaviour) (ph : Phase)
  : list ProgressEvent :=
  match ph with
  | Unrequested | Loading _ => []
  | Initializing _ done _ => done
  | Finished _ => reports (firstInit scr)
  end.

(** The notifications task [i] has been handed by [getConverter]. *)
Definition handed (scr : list InitBehaviour) (ph : Phase) (i : nat)
  : list ProgressEvent :=
  match ownerOf ph with
  | Some o => if (o =? i)%nat then delivered scr ph else []
  | None => []
  end.

Definition phaseWf (scr : list InitBehaviour) (n : nat) (ph : Phase) : Prop :=
  match ph with
  | Unrequested => True
  | Loading o | Finished o => (o < n)%nat
  | Initializing o done pend =>
      (o < n)%nat /\ (done ++ pend)%list = reports (firstInit scr)
  end.

(** The processors' scaling of a notification. *)
Definition scaled (ev : ProgressEvent) : ProgressEvent :=
  mkProgress (Qmin (percent ev * 0.8) 80) (message ev).

Definition loadingEvent : ProgressEvent := mkProgress 5 loadingMessage.

Definition convertingEvent (fmt : Format) : ProgressEvent :=
  mkProgress 85 (convertingMessage fmt).

Definition completeEvent : ProgressEvent := mkProgress 100 completeMessage.

Definition accepted (fmt : Format) (file : File) : bool :=
  includes (validExts fmt) (extensionOf file).

Definition wrongCount (fmt : Format) (files : list File) : ProcessOutput :=
  createErrorOutput INVALID_OPTIONS (wrongCountMessage fmt)
    (Some (countDetail files)).

Definition wrongType (fmt : Format) (file : File) : ProcessOutput :=
  createErrorOutput FILE_TYPE_INVALID (wrongTypeMessage fmt)
    (Some (receivedDetail file)).

Section Reachable.

Variable scr : list InitBehaviour.
Variable conv : File -> Blob + Thrown.

(** A suspended [getConverter] call waits for the one promise, or has seen
    the engine ready. *)
Inductive AcqOk (ph : Phase) : Acquisition -> Prop :=
| acq_awaits :
    ph <> Unrequested -> AcqOk ph (Awaits 0)
| acq_at_once o :
    ph = Finished o -> outcome (firstInit scr) = Fulfilled ->
    AcqOk ph (ReturnedAtOnce (Some LibreOfficeConverter)).

(** Every task of a reachable world is in one of these situations. *)
Inductive TaskOk (ph : Phase) (i : nat) : Task -> Prop :=
| ok_direct_waiting a c :
    AcqOk ph a ->
    TaskOk ph i (mkTask Direct (InGetConverter a) c (handed scr ph i))
| ok_direct_finished c o :
    ph = Finished o ->
    TaskOk ph i
      (mkTask Direct (GetFinished (resultOfOutcome (outcome (firstInit scr))))
         c (handed scr ph i))
| ok_wrong_count fmt files c :
    length files <> 1%nat -> ownerOf ph <> Some i ->
    TaskOk ph i
      (mkTask (Processor fmt files) (ProcessFinished (wrongCount fmt files)) c [])
| ok_wrong_type fmt file c :
    accepted fmt file = false -> ownerOf ph <> Some i ->
    TaskOk ph i
      (mkTask (Processor fmt [file]) (ProcessFinished (wrongType fmt file)) c [])
| ok_acquiring fmt file a c :
    accepted fmt file = true -> AcqOk ph a ->
    TaskOk ph i
      (mkTask (Processor fmt [file]) (InGetConverter a) c
         (loadingEvent :: map scaled (handed scr ph i)))
| ok_init_failed fmt file c o e :
    accepted fmt file = true ->
    ph = Finished o -> outcome (firstInit scr) = Rejected e ->
    TaskOk ph i
      (mkTask (Processor fmt [file]) (ProcessFinished (processingFailed fmt e)) c
         (loadingEvent :: map scaled (handed scr ph i)))
| ok_cancelled_acquiring fmt file o :
    accepted fmt file = true ->
    ph = Finished o -> outcome (firstInit scr) = Fulfilled ->
    TaskOk ph i
      (mkTask (Processor fmt [file]) (ProcessFinished processingCancelled) true
         (loadingEvent :: map scaled (handed scr ph i)))
| ok_converting fmt file c o :
    accepted fmt file = true ->
    ph = Finished o -> outcome (firstInit scr) = Fulfilled ->
    TaskOk ph i
      (mkTask (Processor fmt [file]) InConvertToPdf c
         (loadingEvent :: map scaled (handed scr ph i) ++ [convertingEvent fmt]))
| ok_convert_failed fmt file c o e :
    accepted fmt file = true ->
    ph = Finished o -> outcome (firstInit scr) = Fulfilled ->
    conv file = inr e ->
    TaskOk ph i
      (mkTask (Processor fmt [file]) (ProcessFinished (processingFailed fmt e)) c
         (loadingEvent :: map scaled (handed scr ph i) ++ [convertingEvent fmt]))
| ok_cancelled_converting fmt file o blob :
    accepted fmt file = true ->
    ph = Finished o -> outcome (firstInit scr) = Fulfilled ->
    conv file = inl blob ->
    TaskOk ph i
      (mkTask (Processor fmt [file]) (ProcessFinished processingCancelled) true
         (loadingEvent :: map scaled (handed scr ph i) ++ [convertingEvent fmt]))
| ok_success fmt file c o blob :
    accepted fmt file = true ->
    ph = Finished o -> outcome (firstInit scr) = Fulfilled ->
    conv file = inl blob ->
    TaskOk ph i
      (mkTask (Processor fmt [file])
         (ProcessFinished (createSuccessOutput blob (suggestedName fmt file))) c
         (loadingEvent :: map scaled (handed scr ph i) ++
            [convertingEvent fmt; completeEvent])).

Definition TasksOk (ph : Phase) (ts : list Task) : Prop :=
  forall i t, ts !! i = Some t -> TaskOk ph i t.

(** The invariant of every schedule. *)
Definition InvAt (ph : Phase) (w : World) : Prop :=
  shared w = moduleAt scr conv ph /\
  phaseWf scr (length (tasks w)) ph /\
  TasksOk ph (tasks w).

Definition Inv (w : World) : Prop := exists ph, InvAt ph w.

(** One move of the engine's life that reports nothing. *)
Inductive Advance (n : nat) : Phase -> Phase -> Prop :=
| adv_stay ph : Advance n ph ph
| adv_request o : (n <= o)%nat -> Advance n Unrequested (Loading o)
| adv_import o :
    Advance n (Loading o) (Initializing o [] (reports (firstInit scr)))
| adv_settle o :
    Advance n (Initializing o (reports (firstInit scr)) []) (Finished o).

End Reachable.

(** The owner of the promise, and a settled promise, stay as they are. *)
Definition Later (ph ph' : Phase) : Prop :=
  (forall o, ownerOf ph = Some o -> ownerOf ph' = Some o) /\
  (forall o, ph = Finished o -> ph' = Finished o).



(** ** Quiescence *)

(** Nothing of the engine's initialization is in flight. *)
Definition quiet (ph : Phase) : Prop :=
  match ph with
  | Unrequested | Finished _ => True
  | Loading _ | Initializing _ _ _ => False
  end.

Definition finished (t : Task) : bool :=
  match pc t with
  | GetFinished _ | ProcessFinished _ => true
  | InGetConverter _ | InConvertToPdf => false
  end.

(** The [await]s a task still has before it. *)
Definition stage (t : Task) : nat :=
  match pc t with
  | InGetConverter _ => 2
  | InConvertToPdf => 1
  | GetFinished _ | ProcessFinished _ => 0
  end.

(** A drained world: the invariant at a quiet phase, every task finished. *)
Definition Drained (scr : list InitBehaviour) (conv : File -> Blob + Thrown)
  (ph : Phase) (w : World) : Prop :=
  InvAt scr conv ph w /\ quiet ph /\
  forall i t, tasks w !! i = Some t -> finished t = true.

(** The callers a schedule adds. *)
Definition issued (a : Action) : list Caller :=
  match a with
  | CallGetConverter => [Direct]
  | CallProcess fmt files => [Processor fmt files]
  | _ => []
  end.

Definition callers (w : World) : list Caller := map caller (tasks w).






(** What a finished [process] call on [files] can have returned, given the
    engine's behaviour and the operation's cancellation flag. *)
Inductive Verdict (scr : list InitBehaviour) (conv : File -> Blob + Thrown)
  (fmt : Format) : list File -> bool -> ProcessOutput -> Prop :=
| v_wrong_count files c :
    length files <> 1%nat ->
    Verdict scr conv fmt files c (wrongCount fmt files)
| v_wrong_type file c :
    accepted fmt file = false ->
    Verdict scr conv fmt [file] c (wrongType fmt file)
| v_init_failed file c e :
    accepted fmt file = true ->
    outcome (firstInit scr) = Rejected e ->
    Verdict scr conv fmt [file] c (processingFailed fmt e)
| v_cancelled file :
    accepted fmt file = true ->
    outcome (firstInit scr) = Fulfilled ->
    Verdict scr conv fmt [file] true processingCancelled
| v_convert_failed file c e :
    accepted fmt file = true ->
    outcome (firstInit scr) = Fulfilled ->
    conv file = inr e ->
    Verdict scr conv fmt [file] c (processingFailed fmt e)
| v_success file c blob :
    accepted fmt file = true ->
    outcome (firstInit scr) = Fulfilled ->
    conv file = inl blob ->
    Verdict scr conv fmt [file] c
      (createSuccessOutput blob (suggestedName fmt file)).

(** The last dot-separated segment of a name, by its position: what follows
    the last dot, or the whole name when there is none. *)
Fixpoint lastSegment (s : string) : string :=
  match s with
  | EmptyString => EmptyString
  | String c s' =>
      if nodot s' then (if Ascii.eqb c "." then s' else s)
      else lastSegment s'
  end.

(** ** Statements of the specification that the code does not meet *)


(** "A notification is forwarded to every caller waiting on the
    acquisition": when the engine reports [ev] for promise [p], every direct
    caller suspended on [p] is handed [ev]. *)
Definition ForwardsToEveryWaiter (w : World) (p : nat) : Prop :=
  forall o ev rest out,
    promises (shared w) !! p = Some (AwaitInitialize o (ev :: rest) out) ->
    forall i t,
      tasks w !! i = Some t ->
      caller t = Direct -> pc t = InGetConverter (Awaits p) ->
      exists t',
        tasks (engineReports p w) !! i = Some t' /\
        sink t' = (sink t ++ [ev])%list.


(** The processors' scaling of a percentage: [Math.min(percent * 0.8, 80)]. *)
Definition scalePercent (p : Q) : Q := Qmin (p * 0.8) 80.

(** A task changed in place by a piece of code that runs on its behalf. *)
Definition updateAt (k : nat) (f : Task -> Task) (ts : list Task) : list Task :=
  match ts !! k with
  | Some t => <[k := f t]> ts
  | None => ts
  end.


(** What a processor emits after the scaled feed: nothing yet, 85, or 85
    and 100. *)
Definition mark (tl : list Q) : Prop :=
  tl = [] \/ tl = [85%Q] \/ tl = [85%Q; 100%Q].

(** ** Sample inputs *)

Definition report_docx : File := mkFile "Report.DOCX" EmptyString "bytes".

Definition slides_odp : File := mkFile "q3.slides.odp" EmptyString "bytes".

Definition notes_rtf : File := mkFile "notes.rtf" "application/rtf" "bytes".


Definition picture_png : File := mkFile "picture.png" "image/png" "bytes".

(** An engine whose conversions succeed. *)
Definition healthy (f : File) : Blob + Thrown := inl ("pdf of " ++ name f).

(** An engine whose conversions throw. *)
Definition corrupt (f : File) : Blob + Thrown :=
  inr (JsError "document is damaged").

Definition wasmFailure : Thrown := JsError "failed to fetch soffice.wasm".

Definition halfway : ProgressEvent := mkProgress 50 "Loading fonts".

(** ** The convenience functions

    [pptxToPDF(file, options, onProgress)], [wordToPDF] and [rtfToPDF] make
    a processor of their own ([createPPTXToPDFProcessor()] and its likes)
    and call [process({ files: [file], options: options || {} }, onProgress)]
    on it.  [process] does not read [options], and the processor does not
    leave the function: only the promise of the result does. *)

Definition pptxToPDF (file : File) (w : World) : World :=
  process PPTX [file] w.

Definition wordToPDF (file : File) (w : World) : World :=
  process Word [file] w.

Definition rtfToPDF (file : File) (w : World) : World :=
  process RTF [file] w.

(** The convenience function of each of the three files. *)
Definition toPDF (fmt : Format) : File -> World -> World :=
  match fmt with
  | PPTX => pptxToPDF
  | Word => wordToPDF
  | RTF => rtfToPDF
  end.

(** A cancellation request for task [i]. *)
Definition isCancelOf (i : nat) (a : Action) : bool :=
  match a with
  | Cancel k => (k =? i)%nat
  | _ => false
  end.

(** ** Words of a pattern *)

(** The case folding of the [i] flag, on a whole string. *)
Fixpoint canonical (s : string) : string :=
  match s with
  | EmptyString => EmptyString
  | String c s' => String (canonicalize c) (canonical s')
  end.

(** The strings a pattern spells, [$] spelling nothing. *)
Fixpoint words (r : RegExp) : list string :=
  match r with
  | Eps | Eos => [EmptyString]
  | Chr c => [String c EmptyString]
  | Cat r1 r2 =>
      flat_map (fun a => map (fun b => a ++ b) (words r2)) (words r1)
  | Alt r1 r2 => (words r1 ++ words r2)%list
  | Opt r1 => (words r1 ++ [EmptyString])%list
  end.

(** The name up to its last dot, by position: the whole name when it has no
    dot. *)
Fixpoint stem (s : string) : string :=
  match s with
  | EmptyString => EmptyString
  | String c s' =>
      if nodot s' then (if Ascii.eqb c "." then EmptyString else s)
      else String c (stem s')
  end.

(** ** The second checkpoint *)

(** What a call cancelled during the conversion of [file] returns. *)
Definition lateVerdict (conv : File -> Blob + Thrown) (fmt : Format)
  (file : File) : ProcessOutput :=
  match conv file with
  | inl _ => processingCancelled
  | inr e => processingFailed fmt e
  end.

(** A cancelled operation that started its conversion. *)
Definition CancelledLate (conv : File -> Blob + Thrown) (fmt : Format)
  (file : File) (t : Task) : Prop :=
  cancelled t = true /\
  (pc t = InConvertToPdf \/
   pc t = ProcessFinished (lateVerdict conv fmt file)).

(** The task is the same but, perhaps, for its cancellation flag. *)
Definition sameOutcome (t t' : Task) : Prop :=
  caller t' = caller t /\ pc t' = pc t /\ sink t' = sink t.

(** The result is [Success]. *)
Definition succeeded (t : Task) : Prop :=
  exists blob n, resultOf t = Some (Success blob n "pdf").

(** * The definitions on concrete inputs *)

Example split_two_dots :
  split "." "a..b" = ["a"; EmptyString; "b"].
Proof. reflexivity. Qed.

Example extensionOf_upper_case :
  extensionOf report_docx = "docx".
Proof. reflexivity. Qed.

Example extensionOf_trailing_dot :
  extensionOf (mkFile "notes." EmptyString "bytes") = EmptyString.
Proof. reflexivity. Qed.

Example replace_takes_the_longer_alternative :
  replace (extPattern PPTX) "deck.PPTX" = "deck".
Proof. reflexivity. Qed.

Example replace_only_at_the_end :
  replace (extPattern Word) "a.doc.txt" = "a.doc.txt".
Proof. reflexivity. Qed.

Example replace_last_extension_only :
  replace (extPattern RTF) "a.rtf.rtf" = "a.rtf".
Proof. reflexivity. Qed.

Example countDetail_none : countDetail [] = "Received 0 file(s).".
Proof. reflexivity. Qed.

(** Two conversions started together on a fresh module: one
    initialization, both succeed, and only the first sees the engine's
    progress. *)
Example two_conversions :
  let w := drain (run [CallProcess PPTX [slides_odp];
                       CallProcess Word [report_docx]]
                      (initial [mkInit [halfway] Fulfilled] healthy)) in
  map resultOf (tasks w) =
    [Some (Success "pdf of q3.slides.odp" "q3.slides.pdf" "pdf");
     Some (Success "pdf of Report.DOCX" "Report.pdf" "pdf")] /\
  map (fun t => length (sink t)) (tasks w) = [4%nat; 3%nat] /\
  initializeCalls (engine (shared w)) = 1%nat.
Proof. vm_compute. repeat split. Qed.

(** A conversion cancelled while the engine loads, beside one that is
    not. *)
Example cancelled_beside_another :
  let w := drain (run [CallProcess PPTX [slides_odp];
                       CallProcess Word [report_docx];
                       Cancel 0]
                      (initial [mkInit [halfway] Fulfilled] healthy)) in
  map resultOf (tasks w) =
    [Some (Error PROCESSING_CANCELLED "Processing was cancelled." None);
     Some (Success "pdf of Report.DOCX" "Report.pdf" "pdf")].
Proof. vm_compute. repeat split. Qed.
(** * File names *)

Module FileNames.

Ltac each_ascii c :=
  destruct c as [[|] [|] [|] [|] [|] [|] [|] [|]].

Lemma toLowerCaseChar_dot (c : ascii) :
  Ascii.eqb (toLowerCaseChar c) "." = Ascii.eqb c ".".
Proof. each_ascii c; reflexivity. Qed.

Lemma canonicalize_dot (c : ascii) :
  Ascii.eqb (canonicalize c) (canonicalize ".") = Ascii.eqb c ".".
Proof. each_ascii c; reflexivity. Qed.

Lemma canonicalize_toLowerCaseChar (c : ascii) :
  canonicalize (toLowerCaseChar c) = canonicalize c.
Proof. each_ascii c; reflexivity. Qed.

Lemma canonicalize_of_lower (a b : ascii) :
  toLowerCaseChar a = b -> canonicalize a = canonicalize b.
Proof. intros <-. symmetry. apply canonicalize_toLowerCaseChar. Qed.

Lemma nodot_toLowerCase (s : string) : nodot (toLowerCase s) = nodot s.
Proof.
  induction s as [|c s IH]; [reflexivity|].
  simpl. now rewrite toLowerCaseChar_dot, IH.
Qed.

Lemma nodot_app (s1 s2 : string) :
  nodot (s1 ++ s2) = nodot s1 && nodot s2.
Proof.
  induction s1 as [|c s1 IH]; [reflexivity|].
  simpl. rewrite IH. now rewrite andb_assoc.
Qed.

Lemma includes_In (l : list string) (x : string) :
  includes l x = true <-> In x l.
Proof.
  unfold includes. rewrite existsb_exists. split.
  - intros (y & Hy & E). apply String.eqb_eq in E. now subst.
  - intros H. exists x. split; [assumption | apply String.eqb_refl].
Qed.

Lemma validExts_nodot (fmt : Format) (x : string) :
  includes (validExts fmt) x = true -> nodot x = true.
Proof.
  rewrite includes_In.
  destruct fmt; simpl; intuition (subst; reflexivity).
Qed.

(** *** [split] and [pop] *)

Lemma split_nodot (s : string) : nodot s = true -> split "." s = [s].
Proof.
  induction s as [|c s IH]; [reflexivity|].
  simpl. destruct (Ascii.eqb c "."); [discriminate|].
  simpl. intros H. now rewrite (IH H).
Qed.

Lemma split_last_segment (base e : string) :
  nodot e = true ->
  exists seg mid, split "." (base ++ String "." e) = seg :: mid ++ [e].
Proof.
  intros He. induction base as [|c base (seg & mid & IH)]; simpl.
  - exists EmptyString, []. now rewrite (split_nodot _ He).
  - rewrite IH. destruct (Ascii.eqb c ".").
    + now exists EmptyString, (seg :: mid).
    + now exists (String c seg), mid.
Qed.

Lemma pop_split_dotted (base e : string) :
  nodot e = true -> pop (split "." (base ++ String "." e)) = Some e.
Proof.
  intros He. destruct (split_last_segment base e He) as (seg & mid & ->).
  unfold pop. now rewrite app_comm_cons, last_snoc.
Qed.


(** *** The matcher *)

(** A pattern without a literal dot consumes no dot. *)
Lemma exec_dotless (r : RegExp) :
  dotless r = true ->
  forall s k x, exec r s k = Some x ->
  exists s1 s2, s = s1 ++ s2 /\ nodot s1 = true /\ k s2 = Some x.
Proof.
  induction r as [|c|r1 IH1 r2 IH2|r1 IH1 r2 IH2|r1 IH1|]; simpl; intros Hr s k x H.
  - now exists EmptyString, s.
  - destruct s as [|a s]; [discriminate|].
    destruct (Ascii.eqb (canonicalize a) (canonicalize c)) eqn:E; [|discriminate].
    exists (String a EmptyString), s. repeat split; [|assumption].
    simpl. rewrite andb_true_r.
    apply Ascii.eqb_eq in E.
    destruct (Ascii.eqb a ".") eqn:Ea; [|reflexivity].
    apply Ascii.eqb_eq in Ea. subst a.
    assert (Ascii.eqb (canonicalize c) (canonicalize ".") = true) as Hc
      by (rewrite <- E; apply Ascii.eqb_refl).
    rewrite canonicalize_dot in Hc. now rewrite Hc in Hr.
  - apply andb_true_iff in Hr as [Hr1 Hr2].
    destruct (IH1 Hr1 _ _ _ H) as (s1 & s2 & -> & N1 & H2).
    destruct (IH2 Hr2 _ _ _ H2) as (s3 & s4 & -> & N3 & H4).
    exists (s1 ++ s3), s4. repeat split; [|  |assumption].
    + clear. induction s1 as [|c s1 IH]; [reflexivity | simpl; now rewrite IH].
    + now rewrite nodot_app, N1, N3.
  - apply andb_true_iff in Hr as [Hr1 Hr2].
    destruct (exec r1 s k) eqn:E1.
    + injection H as ->. eauto.
    + eauto.
  - destruct (exec r1 s k) eqn:E1.
    + injection H as ->. eauto.
    + now exists EmptyString, s.
  - destruct s; [|discriminate]. now exists EmptyString, EmptyString.
Qed.

Lemma extPattern_shape (fmt : Format) :
  extPattern fmt = Cat (Chr ".") (Cat (extBody fmt) Eos) /\
  dotless (extBody fmt) = true.
Proof. destruct fmt; split; reflexivity. Qed.

(** The pattern matches nowhere before the last dot of the name. *)
Lemma exec_before_last_dot (fmt : Format) (c : ascii) (rest e : string) :
  exec (extPattern fmt) (String c (rest ++ String "." e)) Some = None.
Proof.
  destruct (extPattern_shape fmt) as [-> Hd].
  destruct (exec _ _ _) as [x|] eqn:H; [exfalso | reflexivity].
  simpl in H.
  destruct (Ascii.eqb (canonicalize c) (canonicalize ".")); [|discriminate].
  destruct (exec_dotless _ Hd _ _ _ H) as (s1 & s2 & E & N & H2).
  destruct s2; [|discriminate].
  assert (nodot (rest ++ String "." e) = true) as Hn.
  { rewrite E, nodot_app, N. reflexivity. }
  rewrite nodot_app in Hn. simpl in Hn.
  now rewrite andb_false_r in Hn.
Qed.

(** The pattern matches nowhere in a name without a dot. *)
Lemma replace_nodot (fmt : Format) (s : string) :
  nodot s = true -> replace (extPattern fmt) s = s.
Proof.
  destruct (extPattern_shape fmt) as [-> _].
  induction s as [|c s IH]; [reflexivity|].
  intros H. simpl in H. apply andb_true_iff in H as [Hc Hs].
  cbn [replace exec]. rewrite canonicalize_dot.
  destruct (Ascii.eqb c "."); [discriminate|].
  now rewrite (IH Hs).
Qed.

Lemma toLowerCase_cons_inv (s : string) (b : ascii) (t : string) :
  toLowerCase s = String b t ->
  exists c s', s = String c s' /\
               canonicalize c = canonicalize b /\ toLowerCase s' = t.
Proof.
  destruct s as [|c s']; simpl; [discriminate|].
  intros H. injection H as Hc Ht.
  exists c, s'. repeat split; [|assumption].
  now apply canonicalize_of_lower.
Qed.

Lemma toLowerCase_nil_inv (s : string) :
  toLowerCase s = EmptyString -> s = EmptyString.
Proof. destruct s; [reflexivity | discriminate]. Qed.

Ltac spell e H :=
  repeat
    (let c := fresh "c" in
     let Hc := fresh "Hc" in
     apply toLowerCase_cons_inv in H as (c & ? & -> & Hc & H));
  apply toLowerCase_nil_inv in H; subst.

(** An accepted extension after a dot is matched by the pattern, up to the
    end of the name. *)
Lemma exec_at_last_dot (fmt : Format) (e : string) :
  includes (validExts fmt) (toLowerCase e) = true ->
  exec (extPattern fmt) (String "." e) Some = Some EmptyString.
Proof.
  rewrite includes_In.
  destruct fmt; simpl validExts; simpl In; intros H;
    repeat (destruct H as [H|H]); try contradiction;
    symmetry in H; spell e H;
    cbn [exec extPattern lit];
    repeat match goal with
           | Hc : canonicalize _ = canonicalize _ |- _ => rewrite Hc; clear Hc
           end;
    reflexivity.
Qed.

Lemma replace_dotted (fmt : Format) (base e : string) :
  includes (validExts fmt) (toLowerCase e) = true ->
  replace (extPattern fmt) (base ++ String "." e) = base.
Proof.
  intros He. induction base as [|c base IH].
  - simpl append. destruct e; cbn [replace]; now rewrite exec_at_last_dot.
  - simpl append. cbn [replace].
    now rewrite exec_before_last_dot, IH.
Qed.

(** *** What [process] computes from a name *)

Lemma extensionOf_dotted (base e ty ct : string) :
  nodot e = true ->
  extensionOf (mkFile (base ++ String "." e) ty ct) = toLowerCase e.
Proof.
  intros He. unfold extensionOf. simpl name. now rewrite pop_split_dotted.
Qed.


Lemma suggestedName_dotted (fmt : Format) (base e ty ct : string) :
  includes (validExts fmt) (toLowerCase e) = true ->
  suggestedName fmt (mkFile (base ++ String "." e) ty ct) = base ++ ".pdf".
Proof.
  intros He. unfold suggestedName, baseName. simpl name.
  now rewrite replace_dotted.
Qed.


(** [split] and [pop] against the segment found by position. *)
Lemma split_dotted_two (s : string) :
  nodot s = false -> exists seg x segs, split "." s = seg :: x :: segs.
Proof.
  induction s as [|a s IH]; [discriminate|].
  simpl. destruct (Ascii.eqb a "."); simpl.
  - intros _. destruct s as [|b s]; [now exists EmptyString, EmptyString, []|].
    destruct (nodot (String b s)) eqn:E.
    + rewrite (split_nodot _ E). now exists EmptyString, (String b s), [].
    + destruct (IH eq_refl) as (seg & x & segs & ->).
      now exists EmptyString, seg, (x :: segs).
  - intros H. destruct (IH H) as (seg & x & segs & ->).
    now exists (String a seg), x, segs.
Qed.

Lemma lastSegment_nodot (s : string) : nodot s = true -> lastSegment s = s.
Proof.
  destruct s as [|c s']; [reflexivity|]. simpl. intros H.
  apply andb_true_iff in H as [Hc ->].
  now destruct (Ascii.eqb c ".").
Qed.

Lemma pop_split_lastSegment (s : string) :
  pop (split "." s) = Some (lastSegment s).
Proof.
  induction s as [|c s IH]; [reflexivity|].
  simpl. destruct (nodot s) eqn:Hs.
  - rewrite (split_nodot _ Hs). now destruct (Ascii.eqb c ".").
  - destruct (split_dotted_two _ Hs) as (seg & x & segs & E).
    rewrite E in *. unfold pop in *.
    destruct (Ascii.eqb c "."); now rewrite <- IH, !last_cons_cons.
Qed.

Lemma extensionOf_lastSegment (f : File) :
  extensionOf f = toLowerCase (lastSegment (name f)).
Proof. unfold extensionOf. now rewrite pop_split_lastSegment. Qed.

End FileNames.

Open Scope list_scope.

(** * Every schedule keeps the invariant *)

Section Invariant.

Variable scr : list InitBehaviour.
Variable conv : File -> Blob + Thrown.

Abbreviation AcqOk := (AcqOk scr).
Abbreviation TaskOk := (TaskOk scr conv).
Abbreviation TasksOk := (TasksOk scr conv).
Abbreviation InvAt := (InvAt scr conv).
Abbreviation Inv := (Inv scr conv).
Abbreviation Advance := (Advance scr).

Lemma handed_advance n ph ph' i :
  Advance n ph ph' -> (i < n)%nat -> handed scr ph' i = handed scr ph i.
Proof.
  intros [ | o Ho | o | o ] Hi; unfold handed; simpl; try reflexivity.
  now destruct (o =? i)%nat.
Qed.

Lemma AcqOk_advance n ph ph' a :
  Advance n ph ph' -> AcqOk ph a -> AcqOk ph' a.
Proof.
  intros Hadv Ha. destruct Hadv; try assumption;
    inversion Ha; subst; try discriminate; try congruence;
    constructor; discriminate.
Qed.

Lemma ownerOf_advance n ph ph' i :
  Advance n ph ph' -> (i < n)%nat -> ownerOf ph <> Some i -> ownerOf ph' <> Some i.
Proof.
  intros [ | o Ho | o | o ] Hi; simpl; try tauto.
  intros _ [= ->]. lia.
Qed.

Lemma Finished_advance n ph ph' o :
  Advance n ph ph' -> ph = Finished o -> ph' = Finished o.
Proof. intros [] E; congruence. Qed.

Lemma Later_refl ph : Later ph ph.
Proof. split; auto. Qed.

Lemma Later_trans ph1 ph2 ph3 : Later ph1 ph2 -> Later ph2 ph3 -> Later ph1 ph3.
Proof. intros [A B] [C D]. split; auto. Qed.

Lemma Advance_Later n ph ph' : Advance n ph ph' -> Later ph ph'.
Proof. intros []; split; simpl; intros; congruence. Qed.

Lemma TaskOk_advance n ph ph' i t :
  Advance n ph ph' -> (i < n)%nat -> TaskOk ph i t -> TaskOk ph' i t.
Proof.
  intros Hadv Hi Ht.
  pose proof (handed_advance _ _ _ _ Hadv Hi) as Hh.
  pose proof (fun a => AcqOk_advance _ _ _ a Hadv) as Ha.
  pose proof (ownerOf_advance _ _ _ _ Hadv Hi) as Ho.
  pose proof (fun o => Finished_advance _ _ _ o Hadv) as Hf.
  destruct Ht; rewrite <- ?Hh; econstructor; eauto.
Qed.

Lemma TasksOk_advance ph ph' ts :
  Advance (length ts) ph ph' -> TasksOk ph ts -> TasksOk ph' ts.
Proof.
  intros Hadv Hts i t Hi.
  eapply TaskOk_advance; eauto. eapply lookup_lt_Some; eauto.
Qed.

Lemma TasksOk_snoc ph ts t :
  TasksOk ph ts -> TaskOk ph (length ts) t -> TasksOk ph (ts ++ [t]).
Proof.
  intros Hts Ht i t' Hi.
  apply lookup_app_Some in Hi as [Hi | [Hle Hi]]; [now apply Hts|].
  destruct (i - length ts)%nat as [|k] eqn:E; simpl in Hi; [|discriminate].
  injection Hi as <-. replace i with (length ts) by lia. assumption.
Qed.

Lemma TasksOk_insert ph ts i t :
  TasksOk ph ts -> TaskOk ph i t -> TasksOk ph (<[i := t]> ts).
Proof.
  intros Hts Ht j t' Hj.
  apply list_lookup_insert_Some in Hj as [(-> & -> & _) | (Hne & Hj)];
    [assumption | now apply Hts].
Qed.

Lemma phaseWf_mono n n' ph :
  (n <= n')%nat -> phaseWf scr n ph -> phaseWf scr n' ph.
Proof. destruct ph; simpl; intuition lia. Qed.

Lemma handed_newcomer n ph :
  phaseWf scr n ph -> handed scr ph n = [].
Proof.
  destruct ph as [|o|o d p|o]; unfold handed; simpl; try reflexivity;
    intros H; replace (o =? n)%nat with false; try reflexivity;
    symmetry; apply Nat.eqb_neq; lia.
Qed.

(** [getConverter] up to its first [await], in every phase. *)
Lemma getConverter_at n ph :
  phaseWf scr n ph ->
  exists ph' a,
    getConverter n (moduleAt scr conv ph) = (moduleAt scr conv ph', a) /\
    Advance n ph ph' /\ AcqOk ph' a /\
    phaseWf scr (S n) ph' /\ handed scr ph' n = [].
Proof.
  intros Hwf. destruct ph as [|o|o d p|o].
  - exists (Loading n), (Awaits 0). unfold handed. simpl.
    rewrite Nat.eqb_refl.
    repeat split; [now constructor | now constructor | lia].
  - exists (Loading o), (Awaits 0).
    repeat split; [constructor | now constructor | simpl in *; lia
                  | now apply handed_newcomer].
  - exists (Initializing o d p), (Awaits 0).
    repeat split; [constructor | now constructor | simpl in *; lia
                  | simpl in *; tauto | now apply handed_newcomer].
  - exists (Finished o).
    unfold getConverter, instanceReady. simpl.
    destruct (outcome (firstInit scr)) as [|e] eqn:E; simpl.
    + exists (ReturnedAtOnce (Some LibreOfficeConverter)).
      repeat split; [constructor | now econstructor | simpl in *; lia
                    | now apply handed_newcomer].
    + exists (Awaits 0).
      repeat split; [constructor | now constructor | simpl in *; lia
                    | now apply handed_newcomer].
Qed.

Lemma acquired_at ph a :
  AcqOk ph a ->
  acquired a (moduleAt scr conv ph) =
  match ph with
  | Finished _ => Some (resultOfOutcome (outcome (firstInit scr)))
  | _ => None
  end.
Proof.
  intros [Hne | o -> E].
  - destruct ph; try congruence; simpl; try reflexivity.
    now destruct (outcome (firstInit scr)).
  - simpl. now rewrite E.
Qed.

Lemma InvAt_initial : InvAt Unrequested (initial scr conv).
Proof. repeat split. intros i t Hi. discriminate. Qed.

Lemma InvAt_callGetConverter ph w :
  InvAt ph w -> exists ph', InvAt ph' (callGetConverter w) /\ Later ph ph'.
Proof.
  intros (Hsh & Hwf & Hts). unfold callGetConverter. rewrite Hsh.
  destruct (getConverter_at _ _ Hwf) as (ph' & a & -> & Hadv & Ha & Hwf' & Hh).
  exists ph'. split; [|eapply Advance_Later; eassumption].
  red. simpl. rewrite length_app. simpl.
  replace (length (tasks w) + 1)%nat with (S (length (tasks w))) by lia.
  repeat split; [assumption|].
  apply TasksOk_snoc; [now apply (TasksOk_advance ph)|].
  rewrite <- Hh. now constructor.
Qed.

Lemma ownerOf_newcomer n ph : phaseWf scr n ph -> ownerOf ph <> Some n.
Proof. destruct ph; simpl; intros H [=]; try lia. Qed.

Lemma InvAt_process fmt files ph w :
  InvAt ph w -> exists ph', InvAt ph' (process fmt files w) /\ Later ph ph'.
Proof.
  intros (Hsh & Hwf & Hts). unfold process.
  destruct (negb (length files =? 1)%nat) eqn:Hn.
  - exists ph. split; [|apply Later_refl].
    red. simpl. rewrite length_app.
    repeat split; [assumption | eapply phaseWf_mono; [|eassumption]; lia |].
    apply TasksOk_snoc; [assumption|].
    apply ok_wrong_count; [|now apply ownerOf_newcomer].
    apply negb_true_iff, Nat.eqb_neq in Hn. assumption.
  - apply negb_false_iff, Nat.eqb_eq in Hn.
    destruct files as [|file [|? ?]]; try discriminate. simpl firstFile.
    fold (accepted fmt file).
    destruct (accepted fmt file) eqn:Hacc; simpl negb; cbv iota.
    + rewrite Hsh.
      destruct (getConverter_at _ _ Hwf) as (ph' & a & -> & Hadv & Ha & Hwf' & Hh).
      exists ph'. split; [|eapply Advance_Later; eassumption].
      red. simpl. rewrite length_app. simpl.
      replace (length (tasks w) + 1)%nat with (S (length (tasks w))) by lia.
      repeat split; [assumption|].
      apply TasksOk_snoc; [now apply (TasksOk_advance ph)|].
      unfold goto, updateProgress. simpl.
      change [mkProgress 5 loadingMessage]
        with (loadingEvent :: map scaled []).
      rewrite <- Hh. now constructor.
    + exists ph. split; [|apply Later_refl].
      red. simpl. rewrite length_app.
      repeat split; [assumption | eapply phaseWf_mono; [|eassumption]; lia |].
      apply TasksOk_snoc; [assumption|].
      apply ok_wrong_type; [assumption | now apply ownerOf_newcomer].
Qed.

Lemma TaskOk_cancel ph i t : TaskOk ph i t -> TaskOk ph i (cancel t).
Proof. intros []; unfold cancel; simpl; econstructor; eauto. Qed.

Lemma InvAt_requestCancel i ph w : InvAt ph w -> InvAt ph (requestCancel i w).
Proof.
  intros (Hsh & Hwf & Hts). unfold requestCancel.
  destruct (tasks w !! i) as [t|] eqn:Hi; [|now repeat split].
  red.
  simpl. rewrite length_insert. repeat split; try assumption.
  apply TasksOk_insert; [assumption|]. apply TaskOk_cancel. now apply Hts.
Qed.

Ltac unchanged ph :=
  exists ph; split;
  [split; [eassumption | split; eassumption] | apply Later_refl].

Lemma InvAt_importResolves p ph w :
  InvAt ph w -> exists ph', InvAt ph' (importResolves p w) /\ Later ph ph'.
Proof.
  intros (Hsh & Hwf & Hts). unfold importResolves. rewrite Hsh.
  destruct ph as [|o|o d pend|o]; destruct p as [|p]; simpl;
    try (match goal with H : shared _ = moduleAt _ _ ?ph |- _ => unchanged ph end).
  exists (Initializing o [] (reports (firstInit scr))).
  split; [|split; simpl; intros; congruence].
  repeat split; try assumption.
  apply (TasksOk_advance (Loading o)); [constructor | assumption].
Qed.

Lemma InvAt_initializeSettles p ph w :
  InvAt ph w -> exists ph', InvAt ph' (initializeSettles p w) /\ Later ph ph'.
Proof.
  intros (Hsh & Hwf & Hts). unfold initializeSettles. rewrite Hsh.
  destruct ph as [|o|o d pend|o]; destruct p as [|p]; simpl;
    try (match goal with H : shared _ = moduleAt _ _ ?ph |- _ => unchanged ph end).
  destruct pend as [|ev pend];
    [|match goal with H : shared _ = moduleAt _ _ ?ph |- _ => unchanged ph end].
  simpl in Hwf. destruct Hwf as [Ho Hd]. rewrite app_nil_r in Hd. subst d.
  exists (Finished o).
  split; [|split; simpl; intros; congruence].
  split; [simpl; now destruct (outcome (firstInit scr))|].
  split; [assumption|]. simpl.
  apply (TasksOk_advance (Initializing o (reports (firstInit scr)) []));
    [constructor | assumption].
Qed.

Lemma TaskOk_report_other o d ev pend i t :
  i <> o ->
  TaskOk (Initializing o d (ev :: pend)) i t ->
  TaskOk (Initializing o (d ++ [ev]) pend) i t.
Proof.
  intros Hne Ht.
  assert (handed scr (Initializing o (d ++ [ev]) pend) i =
          handed scr (Initializing o d (ev :: pend)) i) as Hh.
  { unfold handed. simpl. now destruct (o =? i)%nat eqn:E;
      [apply Nat.eqb_eq in E; congruence|]. }
  assert (forall a, AcqOk (Initializing o d (ev :: pend)) a ->
                    AcqOk (Initializing o (d ++ [ev]) pend) a) as Ha.
  { intros a Hacq. inversion Hacq; subst; [now constructor | discriminate]. }
  destruct Ht; try discriminate; rewrite <- ?Hh;
    econstructor; eauto; simpl in *; congruence.
Qed.

Lemma TaskOk_report_owner o d ev pend t :
  TaskOk (Initializing o d (ev :: pend)) o t ->
  TaskOk (Initializing o (d ++ [ev]) pend) o (onSubProgress ev t).
Proof.
  intros Ht.
  assert (forall dd pp, handed scr (Initializing o dd pp) o = dd) as Hh.
  { intros. unfold handed. simpl. now rewrite Nat.eqb_refl. }
  assert (forall a, AcqOk (Initializing o d (ev :: pend)) a ->
                    AcqOk (Initializing o (d ++ [ev]) pend) a) as Ha.
  { intros a Hacq. inversion Hacq; subst; [now constructor | discriminate]. }
  inversion Ht; subst; try discriminate; simpl in *; try congruence;
    unfold onSubProgress, updateProgress; simpl; rewrite Hh.
  - destruct ev as [pc0 msg]. simpl.
    replace (d ++ [mkProgress pc0 msg])%list
      with (handed scr (Initializing o (d ++ [mkProgress pc0 msg]) pend) o)
      at 2 by apply Hh.
    apply ok_direct_waiting. auto.
  - replace (loadingEvent :: map scaled d ++
               [mkProgress (Qmin (percent ev * 0.8) 80) (message ev)])%list
      with (loadingEvent ::
              map scaled (handed scr (Initializing o (d ++ [ev]) pend) o)).
    + constructor; auto.
    + rewrite Hh, map_app. reflexivity.
Qed.

Lemma InvAt_engineReports p ph w :
  InvAt ph w -> exists ph', InvAt ph' (engineReports p w) /\ Later ph ph'.
Proof.
  intros (Hsh & Hwf & Hts). unfold engineReports. rewrite Hsh.
  destruct ph as [|o|o d pend|o]; destruct p as [|p]; simpl;
    try (match goal with H : shared _ = moduleAt _ _ ?ph |- _ => unchanged ph end).
  destruct pend as [|ev pend];
    [match goal with H : shared _ = moduleAt _ _ ?ph |- _ => unchanged ph end|].
  simpl in Hwf. destruct Hwf as [Ho Hd].
  destruct (lookup_lt_is_Some_2 (tasks w) o Ho) as [t Ht]. rewrite Ht.
  exists (Initializing o (d ++ [ev]) pend).
  split; [|split; simpl; intros; congruence].
  red. simpl. rewrite length_insert.
  repeat split; [assumption | now rewrite <- app_assoc |].
  intros j t' Hj.
  apply list_lookup_insert_Some in Hj as [(-> & <- & _) | (Hne & Hj)].
  - apply TaskOk_report_owner. now apply Hts.
  - apply TaskOk_report_other; [congruence | now apply Hts].
Qed.

Lemma TaskOk_resumeTask ph i t :
  TaskOk ph i t -> TaskOk ph i (resumeTask (moduleAt scr conv ph) t).
Proof.
  intros Ht. destruct Ht as
    [a c Ha | c o E | fmt files c Hl Ho | fmt file c Hacc Ho
    | fmt file a c Hacc Ha | fmt file c o e Hacc E Hout
    | fmt file o Hacc E Hout | fmt file c o Hacc E Hout
    | fmt file c o e Hacc E Hout Hconv | fmt file o blob Hacc E Hout Hconv
    | fmt file c o blob Hacc E Hout Hconv ];
    unfold resumeTask; simpl;
    try (econstructor; solve [eauto]).
  - rewrite (acquired_at _ _ Ha).
    destruct ph; try (now constructor).
    unfold goto. simpl. now econstructor.
  - rewrite (acquired_at _ _ Ha).
    destruct ph as [| | |o]; try (now constructor).
    destruct (outcome (firstInit scr)) as [|e] eqn:Hout; simpl.
    + unfold afterGetConverter, checkCancelled. simpl.
      destruct c; unfold goto, updateProgress; simpl.
      * now econstructor.
      * eapply ok_converting; eauto.
    + unfold goto. simpl. eapply ok_init_failed; eauto.
  - subst ph. simpl. unfold afterConvertToPdf, checkCancelled.
    destruct (conv file) as [blob|e] eqn:Hconv; simpl.
    + destruct c; unfold goto, updateProgress; simpl.
      * eapply ok_cancelled_converting; eauto.
      * rewrite <- app_assoc. simpl. eapply ok_success; eauto.
    + unfold goto. simpl. eapply ok_convert_failed; eauto.
Qed.

Lemma InvAt_resume i ph w : InvAt ph w -> InvAt ph (resume i w).
Proof.
  intros (Hsh & Hwf & Hts). unfold resume.
  destruct (tasks w !! i) as [t|] eqn:Hi; [|now repeat split].
  red.
  simpl. rewrite length_insert. repeat split; try assumption.
  apply TasksOk_insert; [assumption|].
  rewrite Hsh. apply TaskOk_resumeTask. now apply Hts.
Qed.

Lemma InvAt_step a ph w :
  InvAt ph w -> exists ph', InvAt ph' (step a w) /\ Later ph ph'.
Proof.
  destruct a; simpl;
    auto using InvAt_callGetConverter, InvAt_process, InvAt_importResolves,
      InvAt_engineReports, InvAt_initializeSettles;
    intros H; exists ph; split; try apply Later_refl.
  - now apply InvAt_requestCancel.
  - now apply InvAt_resume.
Qed.

Lemma InvAt_run sch ph w :
  InvAt ph w -> exists ph', InvAt ph' (run sch w) /\ Later ph ph'.
Proof.
  revert ph w. induction sch as [|a sch IH]; intros ph w H; simpl.
  - exists ph. split; [assumption | apply Later_refl].
  - destruct (InvAt_step a _ _ H) as (ph1 & H1 & L1).
    destruct (IH _ _ H1) as (ph2 & H2 & L2).
    exists ph2. split; [assumption | eapply Later_trans; eassumption].
Qed.

Theorem reachable_Inv sch : Inv (run sch (initial scr conv)).
Proof.
  destruct (InvAt_run sch _ _ InvAt_initial) as (ph & H & _). now exists ph.
Qed.

End Invariant.

(** * Letting everything come to its end *)

Section Drain.

Variable scr : list InitBehaviour.
Variable conv : File -> Blob + Thrown.

Abbreviation TaskOk := (TaskOk scr conv).
Abbreviation InvAt := (InvAt scr conv).
Abbreviation Drained := (Drained scr conv).

Lemma run_app sch1 sch2 w : run (sch1 ++ sch2) w = run sch2 (run sch1 w).
Proof. revert w. induction sch1 as [|a sch1 IH]; intros w; simpl; auto. Qed.

Lemma moduleAt_inj n n' ph ph' :
  moduleAt scr conv ph = moduleAt scr conv ph' ->
  ownerOf ph = ownerOf ph' ->
  phaseWf scr n ph -> phaseWf scr n' ph' -> ph = ph'.
Proof.
  destruct ph as [|o|o d p|o], ph' as [|o'|o' d' p'|o']; simpl;
    intros E Ho; try discriminate; try congruence.
  intros [_ H] [_ H']. injection E as <- <-.
  rewrite <- H' in H. apply app_inv_tail in H. congruence.
Qed.

(** The phase after a step, read off the module state. *)
Lemma InvAt_step_to a ph ph' o w :
  InvAt ph w ->
  ownerOf ph = Some o -> ownerOf ph' = Some o ->
  shared (step a w) = moduleAt scr conv ph' ->
  phaseWf scr (length (tasks (step a w))) ph' ->
  InvAt ph' (step a w).
Proof.
  intros H Ho Ho' Hsh Hwf.
  destruct (InvAt_step scr conv a _ _ H) as (ph1 & H1 & [L1 _]).
  replace ph' with ph1; [assumption|].
  destruct H1 as (Hsh1 & Hwf1 & _).
  eapply moduleAt_inj; eauto; [congruence|].
  rewrite (L1 _ Ho). congruence.
Qed.

Lemma length_engineReports p w :
  length (tasks (engineReports p w)) = length (tasks w).
Proof.
  unfold engineReports.
  destruct (promises (shared w) !! p) as [[| o [|ev rest] out |]|]; try reflexivity.
  simpl. destruct (tasks w !! o); [apply length_insert | reflexivity].
Qed.

Lemma run_reports k : forall o d pend w,
  InvAt (Initializing o d pend) w -> (length pend <= k)%nat ->
  InvAt (Initializing o (d ++ pend) []) (run (repeat (EngineReports 0) k) w) /\
  length (tasks (run (repeat (EngineReports 0) k) w)) = length (tasks w).
Proof.
  induction k as [|k IH]; intros o d pend w H Hk.
  - destruct pend; [|simpl in Hk; lia]. rewrite app_nil_r. now split.
  - simpl. destruct pend as [|ev pend].
    + assert (engineReports 0 w = w) as ->.
      { unfold engineReports. destruct H as (-> & _). reflexivity. }
      apply IH; [assumption | simpl; lia].
    + assert (InvAt (Initializing o (d ++ [ev]) pend) (engineReports 0 w)) as H1.
      { apply (InvAt_step_to (EngineReports 0) _ _ o _ H); try reflexivity.
        - simpl. unfold engineReports. destruct H as (-> & _). reflexivity.
        - simpl step. rewrite length_engineReports.
          destruct H as (_ & [Ho Hd] & _). split; [assumption|].
          now rewrite <- app_assoc. }
      destruct (IH _ _ _ _ H1) as [H2 Hl]; [simpl in Hk; lia|].
      rewrite <- app_assoc in H2. split; [assumption|].
      now rewrite Hl, length_engineReports.
Qed.

Lemma reportBound_Loading o :
  (length (reports (firstInit scr)) <=
   reportBound (moduleAt scr conv (Loading o)))%nat.
Proof.
  unfold reportBound, firstInit. simpl. destruct scr; simpl; lia.
Qed.

Lemma settle_Initializing k o d pend w :
  InvAt (Initializing o d pend) w -> (length pend <= k)%nat ->
  InvAt (Finished o)
    (run (repeat (EngineReports 0) k ++ [InitializeSettles 0]) w) /\
  length (tasks (run (repeat (EngineReports 0) k ++ [InitializeSettles 0]) w))
  = length (tasks w).
Proof.
  intros H Hk. rewrite run_app.
  destruct (run_reports k _ _ _ _ H Hk) as [H1 Hl].
  set (w1 := run (repeat (EngineReports 0) k) w) in *.
  simpl run.
  assert (initializeSettles 0 w1 =
          mkWorld (moduleAt scr conv (Finished o)) (tasks w1)) as E.
  { unfold initializeSettles. destruct H1 as (-> & _). simpl.
    now destruct (outcome (firstInit scr)). }
  split; [|now rewrite E].
  apply (InvAt_step_to (InitializeSettles 0) _ _ o _ H1); try reflexivity;
    simpl step; rewrite E.
  - reflexivity.
  - simpl. now destruct H1 as (_ & [Ho _] & _).
Qed.

(** After [settleAll], the engine's initialization has finished if it was
    ever requested. *)
Lemma run_settleAll ph w :
  InvAt ph w ->
  exists ph',
    InvAt ph' (run (settleAll (shared w)) w) /\ quiet ph' /\
    ownerOf ph' = ownerOf ph /\
    length (tasks (run (settleAll (shared w)) w)) = length (tasks w).
Proof.
  intros H. pose proof H as (Hsh & Hwf & _). rewrite Hsh.
  destruct ph as [|o|o d pend|o].
  - exists Unrequested. change (settleAll _) with (@nil Action). simpl run.
    split; [exact H | now repeat split].
  - unfold settleAll. simpl. rewrite app_nil_r.
    assert (importResolves 0 w =
            mkWorld (moduleAt scr conv
                       (Initializing o [] (reports (firstInit scr))))
                    (tasks w)) as E.
    { unfold importResolves. rewrite Hsh. reflexivity. }
    assert (InvAt (Initializing o [] (reports (firstInit scr)))
              (importResolves 0 w)) as H1.
    { apply (InvAt_step_to (ImportResolves 0) _ _ o _ H); try reflexivity;
        simpl step; rewrite E.
      - reflexivity.
      - simpl. simpl in Hwf. now split. }
    destruct (settle_Initializing _ _ _ _ _ H1 (reportBound_Loading o))
      as [H2 Hl].
    exists (Finished o). split; [exact H2 | repeat split].
    transitivity (length (tasks (importResolves 0 w)));
      [exact Hl | now rewrite E].
  - unfold settleAll. simpl. rewrite app_nil_r.
    assert (importResolves 0 w = w) as ->.
    { unfold importResolves. rewrite Hsh. reflexivity. }
    destruct (settle_Initializing
                (reportBound (moduleAt scr conv (Initializing o d pend)))
                _ _ _ _ H) as [H2 Hl].
    { unfold reportBound. simpl. lia. }
    exists (Finished o). split; [exact H2 | now repeat split].
  - exists (Finished o). unfold settleAll. simpl. rewrite app_nil_r.
    assert (forall k, run (repeat (EngineReports 0) k ++ [InitializeSettles 0])
                          (importResolves 0 w) = w) as ->.
    { assert (importResolves 0 w = w) as ->
          by (unfold importResolves; rewrite Hsh; reflexivity).
      induction k as [|k IH]; simpl.
      - unfold initializeSettles. rewrite Hsh. reflexivity.
      - assert (engineReports 0 w = w) as ->
            by (unfold engineReports; rewrite Hsh; reflexivity).
        exact IH. }
    split; [exact H | now repeat split].
Qed.

(** *** Resuming every task *)

Lemma resume_lookup i j w :
  tasks (resume i w) !! j =
  if decide (i = j) then resumeTask (shared w) <$> tasks w !! j
  else tasks w !! j.
Proof.
  unfold resume. destruct (tasks w !! i) as [t|] eqn:Hi; simpl.
  - destruct (decide (i = j)) as [->|Hne].
    + rewrite list_lookup_insert_eq by (eapply lookup_lt_Some; eauto).
      now rewrite Hi.
    + now rewrite list_lookup_insert_ne.
  - destruct (decide (i = j)) as [->|Hne]; [now rewrite Hi | reflexivity].
Qed.

Lemma shared_resume i w : shared (resume i w) = shared w.
Proof. unfold resume. now destruct (tasks w !! i). Qed.

Lemma run_resumeFrom n : forall k w,
  let w' := run (flat_map (fun i => [Resume i; Resume i]) (seq k n)) w in
  shared w' = shared w /\
  forall j,
    tasks w' !! j =
    if decide (k <= j < k + n)%nat
    then (fun t => resumeTask (shared w) (resumeTask (shared w) t))
           <$> tasks w !! j
    else tasks w !! j.
Proof.
  induction n as [|n IH]; intros k w; simpl.
  - split; [reflexivity|]. intros j.
    destruct (decide _) as [?|?]; [lia | reflexivity].
  - destruct (IH (S k) (resume k (resume k w))) as [Hs Ht].
    split; [now rewrite Hs, !shared_resume|].
    intros j. rewrite Ht, !resume_lookup, !shared_resume.
    destruct (decide (S k <= j < S k + n)%nat) as [H1|H1];
      destruct (decide (k = j)) as [->|H2];
      destruct (decide (_ <= j < _ + S n)%nat) as [H3|H3];
      try lia; try reflexivity.
    destruct (tasks w !! j); reflexivity.
Qed.

Lemma stage_resumeTask ph i t :
  quiet ph -> TaskOk ph i t ->
  (stage (resumeTask (moduleAt scr conv ph) t) <= pred (stage t))%nat.
Proof.
  intros Hq Ht. destruct Ht as
    [a c Ha | c o E | fmt files c Hl Ho | fmt file c Hacc Ho
    | fmt file a c Hacc Ha | fmt file c o e Hacc E Hout
    | fmt file o Hacc E Hout | fmt file c o Hacc E Hout
    | fmt file c o e Hacc E Hout Hconv | fmt file o blob Hacc E Hout Hconv
    | fmt file c o blob Hacc E Hout Hconv ];
    unfold resumeTask, stage; simpl; try lia.
  - rewrite (acquired_at _ _ _ _ Ha).
    destruct ph; try contradiction; [inversion Ha; congruence | simpl; lia].
  - rewrite (acquired_at _ _ _ _ Ha).
    destruct ph; try contradiction; [inversion Ha; congruence|].
    unfold afterGetConverter, checkCancelled. simpl.
    destruct (outcome (firstInit scr)); simpl; [|lia].
    destruct c; simpl; lia.
  - unfold afterConvertToPdf, checkCancelled.
    destruct (convertToPdf _ _); simpl; [|lia].
    destruct c; simpl; lia.
Qed.

Lemma finished_stage t : finished t = true <-> stage t = 0%nat.
Proof. unfold finished, stage. destruct (pc t); intuition congruence. Qed.

Lemma drain_InvAt ph w :
  InvAt ph w ->
  exists ph', Drained ph' (drain w) /\ Later ph ph' /\
              length (tasks (drain w)) = length (tasks w).
Proof.
  intros H. unfold drain. rewrite run_app.
  destruct (run_settleAll _ _ H) as (ph' & H1 & Hq & Ho & Hl).
  set (w1 := run (settleAll (shared w)) w) in *.
  rewrite <- Hl.
  destruct (run_resumeFrom (length (tasks w1)) 0 w1) as [Hs Ht].
  fold (resumeAll (length (tasks w1))) in Hs, Ht.
  set (w2 := run (resumeAll (length (tasks w1))) w1) in *.
  assert (forall j t2, tasks w2 !! j = Some t2 ->
            exists t1, tasks w1 !! j = Some t1 /\
              t2 = resumeTask (shared w1) (resumeTask (shared w1) t1)) as Hback.
  { intros j t2 Hj. rewrite Ht in Hj.
    destruct (decide _) as [Hin|Hout].
    - destruct (tasks w1 !! j) as [t1|]; [|discriminate].
      injection Hj as <-. eauto.
    - apply lookup_lt_Some in Hj. lia. }
  assert (length (tasks w2) = length (tasks w1)) as Hlen.
  { apply Nat.le_antisymm.
    - destruct (Nat.le_gt_cases (length (tasks w2)) (length (tasks w1)))
        as [|Hgt]; [assumption|].
      destruct (lookup_lt_is_Some_2 (tasks w2) (length (tasks w1)) Hgt)
        as [t2 Hj].
      destruct (Hback _ _ Hj) as (t1 & Hj1 & _).
      apply lookup_lt_Some in Hj1. lia.
    - destruct (Nat.le_gt_cases (length (tasks w1)) (length (tasks w2)))
        as [|Hgt]; [assumption|].
      destruct (lookup_lt_is_Some_2 (tasks w1) (length (tasks w2)) Hgt)
        as [t1 Hj].
      pose proof (Ht (length (tasks w2))) as Hj2.
      rewrite Hj in Hj2. destruct (decide _); simpl in Hj2;
        apply lookup_lt_Some in Hj2; lia. }
  destruct H1 as (Hsh1 & Hwf1 & Hts1).
  assert (Later ph ph') as HL.
  { split; [intros o; congruence|].
    intros o ->. simpl in Ho.
    destruct ph'; simpl in *; try contradiction; congruence. }
  exists ph'. repeat split; try assumption; try congruence; try apply HL.
  - intros j t2 Hj. destruct (Hback _ _ Hj) as (t1 & Hj1 & ->).
    rewrite Hsh1. do 2 apply TaskOk_resumeTask. now apply Hts1.
  - intros j t2 Hj. destruct (Hback _ _ Hj) as (t1 & Hj1 & ->).
    apply finished_stage. rewrite Hsh1.
    pose proof (stage_resumeTask _ _ _ Hq (Hts1 _ _ Hj1)) as S1.
    pose proof (stage_resumeTask _ _ _ Hq
                  (TaskOk_resumeTask _ _ _ _ _ (Hts1 _ _ Hj1))) as S2.
    assert (stage t1 <= 2)%nat by (unfold stage; destruct (pc t1); lia).
    lia.
Qed.

(** Any schedule, then the rest of what is in flight. *)
Lemma drain_run ph w sch :
  InvAt ph w ->
  exists ph', Drained ph' (drain (run sch w)) /\ Later ph ph'.
Proof.
  intros H.
  destruct (InvAt_run scr conv sch _ _ H) as (ph1 & H1 & L1).
  destruct (drain_InvAt _ _ H1) as (ph2 & H2 & L2 & _).
  exists ph2. split; [assumption | eapply Later_trans; eassumption].
Qed.

Theorem drained_reachable sch :
  exists ph, Drained ph (drain (run sch (initial scr conv))).
Proof.
  destruct (drain_run _ _ sch (InvAt_initial scr conv)) as (ph & H & _).
  now exists ph.
Qed.

End Drain.

(** * What a schedule does to one task, and to the list of callers *)

Section Tracking.

Lemma caller_resumeTask m t : caller (resumeTask m t) = caller t.
Proof.
  destruct t as [cl l cn sk].
  unfold resumeTask, afterGetConverter, afterConvertToPdf, checkCancelled.
  simpl. destruct l as [a| | |]; try reflexivity.
  - destruct (acquired a m) as [[c|e]|]; destruct cl; try reflexivity.
    destruct cn; [reflexivity|]. now destruct c.
  - destruct cl as [|fmt files]; [reflexivity|].
    destruct (convertToPdf _ _); [|reflexivity]. now destruct cn.
Qed.

Lemma cancelled_resumeTask m t : cancelled (resumeTask m t) = cancelled t.
Proof.
  destruct t as [cl l cn sk].
  unfold resumeTask, afterGetConverter, afterConvertToPdf, checkCancelled.
  simpl. destruct l as [a| | |]; try reflexivity.
  - destruct (acquired a m) as [[c|e]|]; destruct cl; try reflexivity.
    destruct cn; [reflexivity|]. now destruct c.
  - destruct cl as [|fmt files]; [reflexivity|].
    destruct (convertToPdf _ _); [|reflexivity]. now destruct cn.
Qed.

Lemma caller_onSubProgress ev t : caller (onSubProgress ev t) = caller t.
Proof. destruct t as [[|fmt files] l cn sk]; reflexivity. Qed.

Lemma map_caller_insert (ts : list Task) i t t' :
  ts !! i = Some t -> caller t' = caller t ->
  map caller (<[i := t']> ts) = map caller ts.
Proof.
  intros Hi Hc.
  change (caller <$> <[i := t']> ts = caller <$> ts).
  rewrite list_fmap_insert, Hc. apply list_insert_id.
  now rewrite list_lookup_fmap, Hi.
Qed.

Lemma callers_process fmt files w :
  callers (process fmt files w) = callers w ++ [Processor fmt files].
Proof.
  unfold callers, process.
  destruct (negb _); [simpl; now rewrite map_app|].
  destruct (negb _); [simpl; now rewrite map_app|].
  destruct (getConverter _ _) as [m a]. simpl. now rewrite map_app.
Qed.

Lemma callers_step a w : callers (step a w) = callers w ++ issued a.
Proof.
  destruct a as [|fmt files|i|p|p|p|i]; simpl issued; rewrite ?app_nil_r.
  - unfold callers. simpl. unfold callGetConverter.
    destruct (getConverter _ _) as [m a]. simpl. now rewrite map_app.
  - apply callers_process.
  - unfold callers. simpl. unfold requestCancel.
    destruct (tasks w !! i) as [t|] eqn:Hi; [|reflexivity].
    simpl. now apply (map_caller_insert _ _ t).
  - unfold callers. simpl. unfold importResolves.
    now destruct (promises (shared w) !! p) as [[| |]|].
  - unfold callers. simpl. unfold engineReports.
    destruct (promises (shared w) !! p) as [[|o [|ev rest] out|]|];
      try reflexivity.
    simpl. destruct (tasks w !! o) as [t|] eqn:Ho; [|reflexivity].
    apply (map_caller_insert _ _ t); [assumption|].
    apply caller_onSubProgress.
  - unfold callers. simpl. unfold initializeSettles.
    now destruct (promises (shared w) !! p) as [[|o [|ev rest] out|]|].
  - unfold callers. simpl. unfold resume.
    destruct (tasks w !! i) as [t|] eqn:Hi; [|reflexivity].
    simpl. apply (map_caller_insert _ _ t); [assumption|].
    apply caller_resumeTask.
Qed.

Lemma callers_run sch : forall w,
  callers (run sch w) = callers w ++ flat_map issued sch.
Proof.
  induction sch as [|a sch IH]; intros w; simpl.
  - now rewrite app_nil_r.
  - now rewrite IH, callers_step, <- app_assoc.
Qed.

Lemma flat_map_issued_nil sch :
  (forall a, In a sch -> issued a = []) -> flat_map issued sch = [].
Proof.
  induction sch as [|a sch IH]; intros H; [reflexivity|].
  simpl. rewrite (H a) by now left. apply IH. intros b Hb. apply H. now right.
Qed.

Lemma issued_settleAll m : flat_map issued (settleAll m) = [].
Proof.
  apply flat_map_issued_nil. intros a Ha.
  apply in_flat_map in Ha as (p & _ & [<- | Ha]); [reflexivity|].
  apply in_app_or in Ha as [Ha | [<- | []]]; [|reflexivity].
  apply repeat_spec in Ha. now subst.
Qed.

Lemma issued_resumeAll n : flat_map issued (resumeAll n) = [].
Proof.
  apply flat_map_issued_nil. intros a Ha.
  apply in_flat_map in Ha as (i & _ & [<- | [<- | []]]); reflexivity.
Qed.

Lemma callers_drain w : callers (drain w) = callers w.
Proof.
  unfold drain. rewrite callers_run, flat_map_app.
  now rewrite issued_settleAll, issued_resumeAll, !app_nil_r.
Qed.

(** A task keeps its place and its caller. *)
Lemma caller_kept (w w' : World) (extra : list Caller) i t :
  callers w' = callers w ++ extra ->
  tasks w !! i = Some t ->
  exists t', tasks w' !! i = Some t' /\ caller t' = caller t.
Proof.
  unfold callers. intros E Hi.
  assert ((map caller (tasks w')) !! i = Some (caller t)) as H.
  { rewrite E. apply lookup_app_l_Some.
    change ((caller <$> tasks w) !! i = Some (caller t)).
    now rewrite list_lookup_fmap, Hi. }
  change ((caller <$> tasks w') !! i = Some (caller t)) in H.
  rewrite list_lookup_fmap in H.
  destruct (tasks w' !! i) as [t'|]; [|discriminate].
  injection H as H. eauto.
Qed.

(** The task that a call adds. *)
Lemma caller_added (w w' : World) (c : Caller) (extra : list Caller) :
  callers w' = (callers w ++ [c]) ++ extra ->
  exists t', tasks w' !! length (tasks w) = Some t' /\ caller t' = c.
Proof.
  unfold callers. intros E.
  assert ((map caller (tasks w')) !! length (tasks w) = Some c) as H.
  { rewrite E. apply lookup_app_l_Some.
    rewrite lookup_app_r by (rewrite length_map; lia).
    rewrite length_map, Nat.sub_diag. reflexivity. }
  change ((caller <$> tasks w') !! length (tasks w) = Some c) in H.
  rewrite list_lookup_fmap in H.
  destruct (tasks w' !! length (tasks w)) as [t'|]; [|discriminate].
  injection H as H. eauto.
Qed.

End Tracking.

(** * Results of finished calls *)

Section Results.

Variable scr : list InitBehaviour.
Variable conv : File -> Blob + Thrown.

Abbreviation TaskOk := (TaskOk scr conv).
Abbreviation InvAt := (InvAt scr conv).
Abbreviation Drained := (Drained scr conv).
Abbreviation Verdict := (Verdict scr conv).

Lemma drained_verdict ph w i t fmt files :
  Drained ph w -> tasks w !! i = Some t -> caller t = Processor fmt files ->
  exists out, pc t = ProcessFinished out /\ Verdict fmt files (cancelled t) out.
Proof.
  intros ((_ & _ & Hts) & _ & Hfin) Hi Hc.
  pose proof (Hfin _ _ Hi) as Hf. pose proof (Hts _ _ Hi) as Ht.
  destruct Ht; simpl in Hc; try discriminate; unfold finished in Hf;
    simpl in Hf; try discriminate; injection Hc as <- <-;
    eexists; (split; [reflexivity|]).
  - now constructor.
  - now constructor.
  - now apply v_init_failed.
  - now apply v_cancelled.
  - now apply v_convert_failed.
  - now apply v_cancelled.
  - now apply v_success.
Qed.

Lemma drained_direct ph w i t :
  Drained ph w -> tasks w !! i = Some t -> caller t = Direct ->
  (exists o, ph = Finished o) /\
  pc t = GetFinished (resultOfOutcome (outcome (firstInit scr))) /\
  sink t = handed scr ph i.
Proof.
  intros ((_ & _ & Hts) & _ & Hfin) Hi Hc.
  pose proof (Hfin _ _ Hi) as Hf. pose proof (Hts _ _ Hi) as Ht.
  destruct Ht; simpl in Hc; try discriminate; unfold finished in Hf;
    simpl in Hf; try discriminate.
  eauto.
Qed.

(** A healthy engine and no cancellation: the conversion succeeds, and the
    name is the one [process] computes. *)
Lemma healthy_success sch i t fmt file blob :
  tasks (drain (run sch (initial scr conv))) !! i = Some t ->
  caller t = Processor fmt [file] ->
  accepted fmt file = true ->
  outcome (firstInit scr) = Fulfilled ->
  conv file = inl blob ->
  cancelled t = false ->
  resultOf t = Some (Success blob (suggestedName fmt file) "pdf").
Proof.
  intros Hi Hc Hacc Hout Hconv Hcn.
  destruct (drained_reachable scr conv sch) as (ph & HD).
  destruct (drained_verdict _ _ _ _ _ _ HD Hi Hc) as (out & Hpc & Hv).
  unfold resultOf. rewrite Hpc. f_equal.
  inversion Hv; subst; unfold createSuccessOutput; simpl in *;
    try congruence; try lia.
Qed.

End Results.


(** * Properties of the specification *)

(** C7.  For every input whose file count is not exactly 1, [process]
    returns at once an [Error] with code [INVALID_OPTIONS]: the call adds a
    finished task with that result and an empty progress sink, the module
    state ([converterPromise], [converterInstance], the promise and the
    engine, with its count of [initialize] calls) is the one before the
    call, the other tasks are untouched, and nothing is left to run for the
    call: resuming the task changes nothing. *)
Theorem C7_wrong_file_count (fmt : Format) (files : list File) (w : World) :
  length files <> 1%nat ->
  let t := mkTask (Processor fmt files)
             (ProcessFinished
                (Error INVALID_OPTIONS (wrongCountMessage fmt)
                   (Some (countDetail files)))) false [] in
  process fmt files w = mkWorld (shared w) (tasks w ++ [t]) /\
  forall m, resumeTask m t = t.
Proof.
  intros H t. split; [|reflexivity].
  unfold process. destruct (Nat.eqb_spec (length files) 1); [contradiction|].
  reflexivity.
Qed.

Lemma C7_wrong_file_count_witness :
  process PPTX [slides_odp; report_docx] (initial [] healthy) =
  mkWorld (shared (initial [] healthy))
    [mkTask (Processor PPTX [slides_odp; report_docx])
       (ProcessFinished
          (Error INVALID_OPTIONS
             "Please provide exactly one PowerPoint presentation."
             (Some "Received 2 file(s)."))) false []].
Proof.
  apply (C7_wrong_file_count PPTX [slides_odp; report_docx] (initial [] healthy)).
  simpl. lia.
Defined.

(** C8.  For every single-file input whose lower-cased last dot-separated
    name segment is not among the accepted extensions, [process] returns at
    once an [Error] with code [FILE_TYPE_INVALID]; as for C7, the module
    state and the other tasks are those before the call and nothing is left
    to run for it. *)
Theorem C8_wrong_file_type (fmt : Format) (file : File) (w : World) :
  includes (validExts fmt) (toLowerCase (lastSegment (name file))) = false ->
  let t := mkTask (Processor fmt [file])
             (ProcessFinished
                (Error FILE_TYPE_INVALID (wrongTypeMessage fmt)
                   (Some (receivedDetail file)))) false [] in
  process fmt [file] w = mkWorld (shared w) (tasks w ++ [t]) /\
  forall m, resumeTask m t = t.
Proof.
  intros H t. split; [|reflexivity].
  unfold process. simpl.
  now rewrite FileNames.extensionOf_lastSegment, H.
Qed.

Lemma C8_wrong_file_type_witness :
  process RTF [picture_png] (initial [] healthy) =
  mkWorld (shared (initial [] healthy))
    [mkTask (Processor RTF [picture_png])
       (ProcessFinished
          (Error FILE_TYPE_INVALID
             "Invalid file type. Please upload an .rtf file."
             (Some "Received: image/png"))) false []].
Proof.
  apply (C8_wrong_file_type RTF picture_png (initial [] healthy)).
  vm_compute. reflexivity.
Defined.

(** C4.  For every file named [base.e] whose extension [e] is accepted up
    to case, an engine that initializes and converts, and no cancellation,
    [process] returns [Success] with the converted blob and the suggested
    name [base.pdf]; under every schedule, whatever else runs beside it.
    So [Report.DOCX] gives [Report.pdf]. *)
Theorem C4_suggested_file_name
  (scr : list InitBehaviour) (conv : File -> Blob + Thrown)
  (sch : list Action) (fmt : Format) (base e ty ct : string) (blob : Blob)
  (i : nat) (t : Task) :
  let file := mkFile (base ++ String "." e) ty ct in
  includes (validExts fmt) (toLowerCase e) = true ->
  outcome (firstInit scr) = Fulfilled ->
  conv file = inl blob ->
  tasks (drain (run sch (initial scr conv))) !! i = Some t ->
  caller t = Processor fmt [file] ->
  cancelled t = false ->
  resultOf t = Some (Success blob (base ++ ".pdf") "pdf").
Proof.
  intros file He Hout Hconv Hi Hc Hcn.
  assert (nodot e = true) as Hn.
  { rewrite <- FileNames.nodot_toLowerCase.
    eapply FileNames.validExts_nodot; eassumption. }
  rewrite <- (FileNames.suggestedName_dotted fmt base e ty ct He).
  eapply healthy_success; eauto.
  unfold accepted, file. now rewrite FileNames.extensionOf_dotted.
Qed.

Lemma C4_suggested_file_name_witness :
  exists t,
    tasks (drain (run [CallProcess Word [report_docx]] (initial [] healthy)))
      !! 0%nat = Some t /\
    resultOf t = Some (Success "pdf of Report.DOCX" "Report.pdf" "pdf").
Proof.
  eexists. split; [reflexivity|].
  apply (C4_suggested_file_name [] healthy [CallProcess Word [report_docx]]
           Word "Report" "DOCX" EmptyString "bytes" "pdf of Report.DOCX" 0);
    reflexivity.
Defined.














Lemma not_requested scr conv ph w :
  InvAt scr conv ph w ->
  converterPromise (shared w) = None <-> ph = Unrequested.
Proof. intros (-> & _ & _). destruct ph; simpl; split; congruence. Qed.

(** C5, as the code has it.  The notifications of the engine go to the
    [onProgress] of the one call that started the initialization, and to no
    other: a [getConverter] call made while [converterPromise] is [null]
    is handed every notification of the initialization it starts, in order;
    a call made later, which attaches to the promise, is handed none. *)
Theorem C5_only_the_starter_is_notified
  (scr : list InitBehaviour) (conv : File -> Blob + Thrown)
  (sch1 sch2 : list Action) :
  let w1 := run sch1 (initial scr conv) in
  let w := drain (run sch2 (callGetConverter w1)) in
  exists t,
    tasks w !! length (tasks w1) = Some t /\ caller t = Direct /\
    sink t = match converterPromise (shared w1) with
             | None => reports (firstInit scr)
             | Some _ => []
             end.
Proof.
  intros w1 w.
  destruct (InvAt_run scr conv sch1 _ _ (InvAt_initial scr conv))
    as (ph1 & H1 & _). fold w1 in H1.
  assert (callers w = (callers w1 ++ [Direct]) ++ flat_map issued sch2) as Hcs.
  { unfold w. rewrite callers_drain, callers_run.
    now rewrite (callers_step CallGetConverter). }
  destruct (caller_added _ _ _ _ Hcs) as (t & Hi & Hc).
  exists t. repeat split; try assumption.
  destruct (InvAt_callGetConverter scr conv _ _ H1) as (ph2 & H2 & L12).
  destruct (drain_run scr conv _ _ sch2 H2) as (ph & HD & L2). fold w in HD.
  destruct (drained_direct _ _ _ _ _ _ HD Hi Hc) as ([o ->] & _ & ->).
  pose proof (not_requested _ _ _ _ H1) as Hnr.
  destruct (converterPromise (shared w1)) as [p|] eqn:Hp.
  - (* attached: the owner is an earlier task *)
    assert (exists o1, ownerOf ph1 = Some o1 /\ (o1 < length (tasks w1))%nat)
      as (o1 & Ho1 & Hlt).
    { destruct H1 as (_ & Hwf & _).
      destruct ph1; simpl in *; [destruct Hnr as [_ Hnr]; intuition congruence
                                | eauto | destruct Hwf; eauto | eauto]. }
    destruct L12 as [L12 _], L2 as [L2 _].
    pose proof (L2 _ (L12 _ Ho1)) as Ho. simpl in Ho. injection Ho as ->.
    unfold handed. simpl.
    replace (o1 =? length (tasks w1))%nat with false; [reflexivity|].
    symmetry. apply Nat.eqb_neq. lia.
  - (* the starter *)
    assert (ph1 = Unrequested) as -> by now apply Hnr.
    assert (ph2 = Loading (length (tasks w1))) as ->.
    { destruct H1 as (Hsh1 & _), H2 as (Hsh2 & _).
      unfold callGetConverter in Hsh2. rewrite Hsh1 in Hsh2.
      simpl in Hsh2. destruct ph2; simpl in Hsh2; congruence. }
    destruct L2 as [L2 _]. pose proof (L2 _ eq_refl) as Ho.
    simpl in Ho. injection Ho as ->.
    unfold handed. simpl. now rewrite Nat.eqb_refl.
Qed.

(** C5 as stated fails: two calls wait on the same promise when the engine
    reports; the second, which attached, is handed nothing. *)
Lemma C5_counterexample :
  let w := run [CallGetConverter; CallGetConverter; ImportResolves 0]
               (initial [mkInit [halfway] Fulfilled] healthy) in
  map pc (tasks w) = [InGetConverter (Awaits 0); InGetConverter (Awaits 0)] /\
  map sink (tasks (engineReports 0 w)) = [[halfway]; []] /\
  ~ ForwardsToEveryWaiter w 0.
Proof.
  repeat split.
  intros H.
  destruct (H 0%nat halfway [] Fulfilled eq_refl 1%nat _ eq_refl eq_refl eq_refl)
    as (t' & Ht' & Hs).
  vm_compute in Ht'. injection Ht' as <-. discriminate.
Qed.

(** * Progress percentages *)

Section Percentages.

Open Scope Q_scope.

Lemma scalePercent_le_80 p : scalePercent p <= 80.
Proof. apply Q.le_min_r. Qed.







End Percentages.

Lemma handed_prefix scr n ph i :
  phaseWf scr n ph -> exists rest, handed scr ph i ++ rest = reports (firstInit scr).
Proof.
  unfold handed. destruct ph as [|o|o d pend|o]; simpl; intros H;
    try (now exists (reports (firstInit scr)));
    destruct (o =? i)%nat;
    try (now exists (reports (firstInit scr))).
  - destruct H as [_ H]. now exists pend.
  - exists []. apply app_nil_r.
Qed.

Lemma percents_of_sink (h tl : list ProgressEvent) :
  map percent (loadingEvent :: map scaled h ++ tl) =
  5%Q :: map scalePercent (map percent h) ++ map percent tl.
Proof.
  simpl. f_equal. rewrite map_app, !map_map. reflexivity.
Qed.




(** * Cancellation is local to one operation *)

Section Cancellation.

Lemma updateAt_lookup k f (ts : list Task) j :
  updateAt k f ts !! j =
  if decide (k = j) then f <$> ts !! j else ts !! j.
Proof.
  unfold updateAt. destruct (ts !! k) as [t|] eqn:Hk.
  - destruct (decide (k = j)) as [->|Hne].
    + rewrite list_lookup_insert_eq by (eapply lookup_lt_Some; eauto).
      now rewrite Hk.
    + now rewrite list_lookup_insert_ne.
  - destruct (decide (k = j)) as [->|Hne]; [now rewrite Hk | reflexivity].
Qed.


Lemma requestCancel_updateAt i w :
  requestCancel i w = mkWorld (shared w) (updateAt i cancel (tasks w)).
Proof.
  unfold requestCancel, updateAt. destruct w as [m ts]. simpl.
  now destruct (ts !! i).
Qed.

Lemma resume_updateAt i w :
  resume i w = mkWorld (shared w) (updateAt i (resumeTask (shared w)) (tasks w)).
Proof.
  unfold resume, updateAt. destruct w as [m ts]. simpl.
  now destruct (ts !! i).
Qed.









Variable scr : list InitBehaviour.
Variable conv : File -> Blob + Thrown.
Hypothesis engine_initializes : outcome (firstInit scr) = Fulfilled.




End Cancellation.



(** * The file-name pattern against the list of extensions *)

Module Patterns.

Import FileNames.

Lemma toLowerCaseChar_canonicalize (c : ascii) :
  toLowerCaseChar (canonicalize c) = toLowerCaseChar c.
Proof. each_ascii c; reflexivity. Qed.

Lemma canonicalize_injective_on_dot (c : ascii) :
  canonicalize c = canonicalize "." -> c = "."%char.
Proof.
  intros H. apply Ascii.eqb_eq. rewrite <- canonicalize_dot.
  apply Ascii.eqb_eq. exact H.
Qed.

Lemma toLowerCase_of_canonical (s w : string) :
  canonical s = canonical w -> toLowerCase s = toLowerCase w.
Proof.
  revert w. induction s as [|a s IH]; intros [|b w]; simpl; try discriminate;
    [reflexivity|].
  intros [= Hc Hs]. rewrite (IH _ Hs). f_equal.
  rewrite <- (toLowerCaseChar_canonicalize a), Hc.
  apply toLowerCaseChar_canonicalize.
Qed.

Lemma canonical_app (s1 s2 : string) :
  canonical (s1 ++ s2)%string = (canonical s1 ++ canonical s2)%string.
Proof. induction s1 as [|c s1 IH]; simpl; [reflexivity | now rewrite IH]. Qed.

Lemma length_string_app (s1 s2 : string) :
  String.length (s1 ++ s2)%string = (String.length s1 + String.length s2)%nat.
Proof. induction s1 as [|c s1 IH]; simpl; [reflexivity | now rewrite IH]. Qed.

Lemma string_app_assoc (s1 s2 s3 : string) :
  ((s1 ++ s2) ++ s3 = s1 ++ (s2 ++ s3))%string.
Proof. induction s1 as [|c s1 IH]; simpl; [reflexivity | now rewrite IH]. Qed.

(** What the matcher consumes is, up to case, a word of the pattern. *)
Lemma exec_words (r : RegExp) : forall s k x,
  exec r s k = Some x ->
  exists w s1 s2,
    In w (words r) /\ s = (s1 ++ s2)%string /\
    canonical s1 = canonical w /\ k s2 = Some x.
Proof.
  induction r as [|c|r1 IH1 r2 IH2|r1 IH1 r2 IH2|r1 IH1|]; simpl; intros s k x H.
  - exists EmptyString, EmptyString, s. auto.
  - destruct s as [|a s]; [discriminate|].
    destruct (Ascii.eqb (canonicalize a) (canonicalize c)) eqn:E; [|discriminate].
    apply Ascii.eqb_eq in E.
    exists (String c EmptyString), (String a EmptyString), s.
    simpl. rewrite E. auto.
  - destruct (IH1 _ _ _ H) as (w1 & s1 & s2 & Hw1 & -> & C1 & H2).
    destruct (IH2 _ _ _ H2) as (w2 & s3 & s4 & Hw2 & -> & C2 & H4).
    exists (w1 ++ w2)%string, (s1 ++ s3)%string, s4.
    repeat split.
    + apply in_flat_map. exists w1. split; [assumption|].
      apply in_map_iff. eauto.
    + now rewrite string_app_assoc.
    + now rewrite !canonical_app, C1, C2.
    + assumption.
  - destruct (exec r1 s k) eqn:E1.
    + injection H as ->.
      destruct (IH1 _ _ _ E1) as (w & s1 & s2 & Hw & ? & ? & ?).
      exists w, s1, s2. rewrite in_app_iff. auto.
    + destruct (IH2 _ _ _ H) as (w & s1 & s2 & Hw & ? & ? & ?).
      exists w, s1, s2. rewrite in_app_iff. auto.
  - destruct (exec r1 s k) eqn:E1.
    + injection H as ->.
      destruct (IH1 _ _ _ E1) as (w & s1 & s2 & Hw & ? & ? & ?).
      exists w, s1, s2. rewrite in_app_iff. auto.
    + exists EmptyString, EmptyString, s. rewrite in_app_iff. simpl. auto.
  - destruct s; [|discriminate]. exists EmptyString, EmptyString, EmptyString.
    simpl. auto.
Qed.

(** Each pattern spells, between [\.] and [$], the entries of [validExts],
    in the same order. *)
Lemma words_extBody (fmt : Format) : words (extBody fmt) = validExts fmt.
Proof. destruct fmt; reflexivity. Qed.

Lemma validExts_lower (fmt : Format) (w : string) :
  In w (validExts fmt) -> toLowerCase w = w.
Proof. destruct fmt; simpl; intuition (subst; reflexivity). Qed.

(** A match of the pattern is a dot and an accepted extension, to the end. *)
Lemma exec_extPattern (fmt : Format) (s x : string) :
  exec (extPattern fmt) s Some = Some x ->
  x = EmptyString /\
  exists e, s = String "." e /\
            includes (validExts fmt) (toLowerCase e) = true.
Proof.
  destruct (extPattern_shape fmt) as [-> _]. intros H.
  cbn [exec] in H.
  destruct s as [|a s]; [discriminate|].
  destruct (Ascii.eqb (canonicalize a) (canonicalize ".")) eqn:Ea; [|discriminate].
  apply Ascii.eqb_eq, canonicalize_injective_on_dot in Ea. subst a.
  destruct (exec_words _ _ _ _ H) as (w & s1 & s2 & Hw & -> & Hc & H2).
  destruct s2; [|discriminate]. injection H2 as <-.
  split; [reflexivity|]. exists s1. split.
  - f_equal. clear. induction s1 as [|c s1 IH]; simpl; [reflexivity | now rewrite IH].
  - rewrite words_extBody in Hw. apply includes_In.
    rewrite (toLowerCase_of_canonical _ _ Hc), (validExts_lower _ _ Hw).
    assumption.
Qed.

Lemma replace_splits (fmt : Format) (s : string) :
  exists suffix,
    s = (replace (extPattern fmt) s ++ suffix)%string /\
    (suffix = EmptyString \/
     exists e, suffix = String "." e /\
               includes (validExts fmt) (toLowerCase e) = true).
Proof.
  induction s as [|c s (suffix & Hs & Hsuf)].
  - exists EmptyString. split; [|now left].
    cbn [replace]. destruct (exec _ _ _) eqn:E; [|reflexivity].
    apply exec_extPattern in E as (_ & e & He & _). discriminate.
  - cbn [replace]. destruct (exec (extPattern fmt) (String c s) Some) as [x|] eqn:E.
    + apply exec_extPattern in E as (-> & e & He & Hin).
      exists (String c s). split; [reflexivity|]. right. eauto.
    + exists suffix. split; [simpl; now rewrite <- Hs | assumption].
Qed.

Lemma stem_nodot (s : string) : nodot s = true -> stem s = s.
Proof.
  destruct s as [|c s]; [reflexivity|]. simpl. intros H.
  apply andb_true_iff in H as [Hc ->]. now destruct (Ascii.eqb c ".").
Qed.

Lemma nodot_lastSegment (s : string) : nodot (lastSegment s) = true.
Proof.
  induction s as [|c s IH]; [reflexivity|].
  simpl. destruct (nodot s) eqn:Hs; [|assumption].
  destruct (Ascii.eqb c ".") eqn:Hc; [assumption|].
  simpl. now rewrite Hc, Hs.
Qed.

(** A name with a dot is its stem, a dot, and its last segment. *)
Lemma stem_lastSegment (s : string) :
  nodot s = false -> s = (stem s ++ String "." (lastSegment s))%string.
Proof.
  induction s as [|c s IH]; [discriminate|].
  simpl. destruct (nodot s) eqn:Hs.
  - rewrite andb_true_r. destruct (Ascii.eqb c ".") eqn:Hc; [|discriminate].
    apply Ascii.eqb_eq in Hc. now subst.
  - intros _. simpl. now rewrite <- IH.
Qed.

Lemma baseName_accepted (fmt : Format) (f : File) :
  accepted fmt f = true -> baseName fmt f = stem (name f).
Proof.
  intros Hacc. unfold baseName. destruct (nodot (name f)) eqn:Hn.
  - now rewrite FileNames.replace_nodot, stem_nodot.
  - unfold accepted in Hacc.
    rewrite FileNames.extensionOf_lastSegment in Hacc.
    rewrite (stem_lastSegment _ Hn) at 1.
    now apply FileNames.replace_dotted.
Qed.

End Patterns.

(** * Names, patterns and the three processors *)

(** X1.  What [file.name.replace(pattern, '')] removes: for every name and
    each of the three patterns, either the name ends with a dot followed by
    an extension of [validExts] (up to case) and exactly that ending is
    removed, or the name is returned as it is and no split of it at a dot
    leaves an accepted extension behind the dot. *)
Theorem X1_pattern_removes_an_accepted_extension (fmt : Format) (s : string) :
  (exists e,
     s = (replace (extPattern fmt) s ++ String "." e)%string /\
     includes (validExts fmt) (toLowerCase e) = true) \/
  (replace (extPattern fmt) s = s /\
   forall base e,
     s = (base ++ String "." e)%string ->
     includes (validExts fmt) (toLowerCase e) = false).
Proof.
  destruct (Patterns.replace_splits fmt s) as (suffix & Hs & [-> | (e & -> & He)]).
  - right.
    assert (replace (extPattern fmt) s = s) as Hr.
    { rewrite Hs at 2. clear.
      induction (replace (extPattern fmt) s) as [|c r IH]; simpl;
        [reflexivity | now rewrite <- IH]. }
    split; [assumption|]. intros base e E.
    destruct (includes (validExts fmt) (toLowerCase e)) eqn:He; [|reflexivity].
    exfalso. rewrite E, (FileNames.replace_dotted fmt base e He) in Hr.
    apply (f_equal String.length) in Hr.
    rewrite Patterns.length_string_app in Hr. simpl in Hr. lia.
  - left. eauto.
Qed.

(** X2.  For every file a processor accepts, the base name it computes is
    the name up to its last dot, and the whole name when the name has no
    dot: the suggested name is that stem followed by [.pdf]. *)
Theorem X2_accepted_base_name_is_the_stem (fmt : Format) (f : File) :
  accepted fmt f = true ->
  baseName fmt f = stem (name f) /\
  suggestedName fmt f = (stem (name f) ++ ".pdf")%string.
Proof.
  intros Hacc. pose proof (Patterns.baseName_accepted fmt f Hacc) as Hb.
  split; [assumption|]. unfold suggestedName. now rewrite Hb.
Qed.

Lemma X2_accepted_base_name_is_the_stem_witness :
  baseName PPTX slides_odp = "q3.slides" /\
  suggestedName PPTX slides_odp = "q3.slides.pdf".
Proof.
  apply (X2_accepted_base_name_is_the_stem PPTX slides_odp). reflexivity.
Defined.

(** X3.  Every file the RTF processor accepts is accepted by the Word
    processor as well, and both suggest the same output name. *)
Theorem X3_rtf_files_are_word_files (f : File) :
  accepted RTF f = true ->
  accepted Word f = true /\ suggestedName Word f = suggestedName RTF f.
Proof.
  intros H.
  assert (accepted Word f = true) as HW.
  { unfold accepted in *. apply FileNames.includes_In in H.
    apply FileNames.includes_In. simpl in *. tauto. }
  split; [assumption|].
  unfold suggestedName.
  now rewrite (Patterns.baseName_accepted _ _ H), (Patterns.baseName_accepted _ _ HW).
Qed.

Lemma X3_rtf_files_are_word_files_witness :
  accepted Word notes_rtf = true /\
  suggestedName Word notes_rtf = suggestedName RTF notes_rtf.
Proof. apply (X3_rtf_files_are_word_files notes_rtf). reflexivity. Defined.

(** X4.  No file is taken both for a presentation and for a document: a
    file the PowerPoint processor accepts is rejected by the Word and the
    RTF processor. *)
Theorem X4_presentations_are_not_documents (f : File) :
  accepted PPTX f = true ->
  accepted Word f = false /\ accepted RTF f = false.
Proof.
  unfold accepted. intros H. apply FileNames.includes_In in H.
  simpl in H. destruct H as [<- | [<- | [<- | []]]]; split; reflexivity.
Qed.

Lemma X4_presentations_are_not_documents_witness :
  accepted Word slides_odp = false /\ accepted RTF slides_odp = false.
Proof. apply (X4_presentations_are_not_documents slides_odp). reflexivity. Defined.

(** * One task along a schedule *)

Section Along.

Variable scr : list InitBehaviour.
Variable conv : File -> Blob + Thrown.

Abbreviation TaskOk := (TaskOk scr conv).
Abbreviation InvAt := (InvAt scr conv).
Abbreviation Drained := (Drained scr conv).

(** What a step does to task [i], and which step does it. *)
Lemma task_step a w i t :
  tasks w !! i = Some t ->
  exists t',
    tasks (step a w) !! i = Some t' /\
    (t' = t \/
     (a = Cancel i /\ t' = cancel t) \/
     (exists p ev rest out,
        a = EngineReports p /\
        promises (shared w) !! p = Some (AwaitInitialize i (ev :: rest) out) /\
        t' = onSubProgress ev t) \/
     (a = Resume i /\ t' = resumeTask (shared w) t)).
Proof.
  intros Hi.
  assert (forall x, (tasks w ++ [x]) !! i = Some t) as Happ.
  { intros x. rewrite lookup_app_l by (eapply lookup_lt_Some; eauto). exact Hi. }
  destruct a as [|fmt files|k|p|p|p|k]; simpl.
  - unfold callGetConverter. destruct (getConverter _ _). simpl. eauto.
  - unfold process.
    destruct (negb _); [simpl; eauto|].
    destruct (negb _); [simpl; eauto|].
    destruct (getConverter _ _). simpl. eauto.
  - rewrite requestCancel_updateAt. simpl. rewrite updateAt_lookup.
    destruct (decide (k = i)) as [->|Hne]; rewrite Hi; simpl; eauto 6.
  - unfold importResolves.
    destruct (promises (shared w) !! p) as [[| |]|]; simpl; eauto.
  - unfold engineReports.
    destruct (promises (shared w) !! p) as [[|o [|ev rest] out|]|] eqn:E;
      simpl; eauto.
    change (match tasks w !! o with
            | Some t0 => <[o := onSubProgress ev t0]> (tasks w)
            | None => tasks w
            end) with (updateAt o (onSubProgress ev) (tasks w)).
    rewrite updateAt_lookup.
    destruct (decide (o = i)) as [->|Hne]; rewrite Hi; simpl; [|eauto].
    eexists. split; [reflexivity|]. right. right. left. eauto 8.
  - unfold initializeSettles.
    destruct (promises (shared w) !! p) as [[|o [|ev rest] out|]|]; simpl; eauto.
  - rewrite resume_updateAt. simpl. rewrite updateAt_lookup.
    destruct (decide (k = i)) as [->|Hne]; rewrite Hi; simpl; eauto 7.
Qed.

Lemma resumeTask_finished m t : finished t = true -> resumeTask m t = t.
Proof.
  unfold finished, resumeTask. destruct (pc t); try discriminate; reflexivity.
Qed.

Lemma convertToPdf_moduleAt ph :
  convertToPdf (engine (moduleAt scr conv ph)) = conv.
Proof. destruct ph; reflexivity. Qed.

Lemma finished_not_reported ph i t o d ev pend :
  TaskOk ph i t -> finished t = true ->
  ph = Initializing o d (ev :: pend) -> o <> i.
Proof.
  intros Ht Hf -> ->.
  destruct Ht; unfold finished in Hf; simpl in *;
    try discriminate; congruence.
Qed.

(** A finished task is not changed any more, but for its flag. *)
Lemma finished_step a ph w i t :
  InvAt ph w -> tasks w !! i = Some t -> finished t = true ->
  exists t', tasks (step a w) !! i = Some t' /\ sameOutcome t t'.
Proof.
  intros (Hsh & _ & Hts) Hi Hf.
  destruct (task_step a w i t Hi) as (t' & Hi' & Hcase).
  exists t'. split; [assumption|].
  destruct Hcase
    as [-> | [[_ ->] | [(p & ev & rest & out & _ & Hp & ->) | [_ ->]]]].
  - now repeat split.
  - now repeat split.
  - exfalso. rewrite Hsh in Hp.
    destruct ph as [|o|o d pend|o]; destruct p as [|p]; simpl in Hp;
      try discriminate.
    injection Hp as -> -> _.
    eapply (finished_not_reported _ _ _ _ _ _ _ (Hts _ _ Hi) Hf); reflexivity.
  - rewrite resumeTask_finished by assumption. now repeat split.
Qed.

Lemma finished_run sch : forall ph w i t,
  InvAt ph w -> tasks w !! i = Some t -> finished t = true ->
  exists t', tasks (run sch w) !! i = Some t' /\ sameOutcome t t'.
Proof.
  induction sch as [|a sch IH]; intros ph w i t H Hi Hf; simpl.
  - exists t. now repeat split.
  - destruct (finished_step a _ _ _ _ H Hi Hf) as (t1 & Hi1 & Hc1 & Hp1 & Hs1).
    destruct (InvAt_step scr conv a _ _ H) as (ph1 & H1 & _).
    assert (finished t1 = true) as Hf1 by (unfold finished in *; now rewrite Hp1).
    destruct (IH _ _ _ _ H1 Hi1 Hf1) as (t2 & Hi2 & Hc2 & Hp2 & Hs2).
    exists t2. split; [assumption|]. repeat split; congruence.
Qed.

(** The flag of a task changes only by a cancellation request for it. *)
Lemma cancelled_step a w i t :
  isCancelOf i a = false -> tasks w !! i = Some t ->
  exists t', tasks (step a w) !! i = Some t' /\ cancelled t' = cancelled t.
Proof.
  intros Ha Hi.
  destruct (task_step a w i t Hi) as (t' & Hi' & Hcase).
  exists t'. split; [assumption|].
  destruct Hcase
    as [-> | [[-> _] | [(p & ev & rest & out & _ & _ & ->) | [_ ->]]]].
  - reflexivity.
  - simpl in Ha. now rewrite Nat.eqb_refl in Ha.
  - now destruct t as [[|? ?] ? ? ?].
  - apply cancelled_resumeTask.
Qed.

Lemma cancelled_run sch : forall w i t,
  Forall (fun a => isCancelOf i a = false) sch -> tasks w !! i = Some t ->
  exists t', tasks (run sch w) !! i = Some t' /\ cancelled t' = cancelled t.
Proof.
  induction sch as [|a sch IH]; intros w i t Hs Hi; simpl; [eauto|].
  apply Forall_cons in Hs as [Ha Hs].
  destruct (cancelled_step a w i t Ha Hi) as (t1 & Hi1 & Hc1).
  destruct (IH _ _ _ Hs Hi1) as (t2 & Hi2 & Hc2).
  exists t2. split; [assumption | congruence].
Qed.

Lemma no_cancel_in_drain i m n :
  Forall (fun a => isCancelOf i a = false) (settleAll m ++ resumeAll n).
Proof.
  apply Forall_app. split; apply Forall_forall; intros a Ha.
  - apply list_elem_of_In, in_flat_map in Ha as (p & _ & [<- | Ha]); [reflexivity|].
    apply in_app_or in Ha as [Ha | [<- | []]]; [|reflexivity].
    apply repeat_spec in Ha. now subst.
  - apply list_elem_of_In, in_flat_map in Ha as (k & _ & [<- | [<- | []]]);
      reflexivity.
Qed.

(** A call cancelled during its conversion stays so. *)
Lemma CancelledLate_step a ph w i t fmt files :
  InvAt ph w ->
  tasks w !! i = Some t -> caller t = Processor fmt files ->
  CancelledLate conv fmt (firstFile files) t ->
  exists t', tasks (step a w) !! i = Some t' /\
             caller t' = Processor fmt files /\
             CancelledLate conv fmt (firstFile files) t'.
Proof.
  intros (Hsh & _ & _) Hi Hc HP.
  destruct (task_step a w i t Hi) as (t' & Hi' & Hcase).
  exists t'. split; [assumption|].
  destruct Hcase
    as [-> | [[_ ->] | [(p & ev & rest & out & _ & _ & ->) | [_ ->]]]].
  - auto.
  - split; [assumption|]. destruct HP as [_ HP]. split; [reflexivity | exact HP].
  - split; [now rewrite caller_onSubProgress|].
    destruct t as [cl l cn sk]. simpl in Hc. subst cl. exact HP.
  - split; [now rewrite caller_resumeTask|].
    destruct t as [cl l cn sk]. destruct HP as [Hcn [Hpc | Hpc]];
      simpl in *; subst; unfold resumeTask; simpl.
    + rewrite Hsh, convertToPdf_moduleAt.
      unfold CancelledLate, afterConvertToPdf, lateVerdict, checkCancelled.
      destruct (conv (firstFile files)); simpl; (split; [reflexivity|]);
        right; reflexivity.
    + split; auto.
Qed.

Lemma CancelledLate_run sch : forall ph w i t fmt files,
  InvAt ph w ->
  tasks w !! i = Some t -> caller t = Processor fmt files ->
  CancelledLate conv fmt (firstFile files) t ->
  exists t', tasks (run sch w) !! i = Some t' /\
             caller t' = Processor fmt files /\
             CancelledLate conv fmt (firstFile files) t'.
Proof.
  induction sch as [|a sch IH]; intros ph w i t fmt files H Hi Hc HP; simpl.
  - eauto.
  - destruct (CancelledLate_step a _ _ _ _ _ _ H Hi Hc HP) as (t1 & Hi1 & Hc1 & HP1).
    destruct (InvAt_step scr conv a _ _ H) as (ph1 & H1 & _).
    eapply IH; eauto.
Qed.


End Along.

(** * The shared engine along every schedule *)


(** X6.  Once [converterPromise] holds a promise it holds that promise for
    ever: nothing that runs later sets it back to [null] or replaces it. *)
Theorem X6_promise_is_never_replaced
  (scr : list InitBehaviour) (conv : File -> Blob + Thrown)
  (sch1 sch2 : list Action) (p : nat) :
  let w1 := run sch1 (initial scr conv) in
  converterPromise (shared w1) = Some p ->
  converterPromise (shared (run sch2 w1)) = Some p.
Proof.
  intros w1 Hp.
  destruct (InvAt_run scr conv sch1 _ _ (InvAt_initial scr conv))
    as (ph1 & H1 & _). fold w1 in H1.
  destruct (InvAt_run scr conv sch2 _ _ H1) as (ph2 & (Hsh2 & _) & [L _]).
  destruct H1 as (Hsh1 & _). rewrite Hsh1 in Hp. rewrite Hsh2.
  destruct ph1 as [|o|o d pend|o]; simpl in Hp; try discriminate;
    specialize (L o eq_refl); destruct ph2; simpl in *; congruence.
Qed.

Lemma X6_promise_is_never_replaced_witness :
  converterPromise
    (shared (run [InitializeSettles 0; CallProcess RTF [notes_rtf]; Resume 0]
                 (run [CallGetConverter; ImportResolves 0]
                      (initial [mkInit [] (Rejected wasmFailure)] healthy))))
  = Some 0%nat.
Proof.
  apply (X6_promise_is_never_replaced
           [mkInit [] (Rejected wasmFailure)] healthy
           [CallGetConverter; ImportResolves 0]
           [InitializeSettles 0; CallProcess RTF [notes_rtf]; Resume 0] 0).
  reflexivity.
Defined.

(** * Results and cancellation *)

(** X7.  The second checkpoint.  A [process] call that is suspended at
    [await converter.convertToPdf(file)] is cancelled.  Whatever runs
    afterwards, it returns [PROCESSING_CANCELLED] when the conversion
    succeeds (the blob is dropped), and [PROCESSING_FAILED] with the detail
    of the error when the conversion throws: the exception wins over the
    cancellation. *)
Theorem X7_cancel_during_conversion
  (scr : list InitBehaviour) (conv : File -> Blob + Thrown)
  (sch1 sch2 : list Action) (i : nat) (t : Task)
  (fmt : Format) (files : list File) :
  let w1 := run sch1 (initial scr conv) in
  tasks w1 !! i = Some t ->
  caller t = Processor fmt files ->
  pc t = InConvertToPdf ->
  let w := drain (run sch2 (step (Cancel i) w1)) in
  exists t',
    tasks w !! i = Some t' /\
    resultOf t' =
    Some (match conv (firstFile files) with
          | inl _ => Error PROCESSING_CANCELLED cancelledMessage None
          | inr e =>
              Error PROCESSING_FAILED (failedMessage fmt) (Some (detailOf e))
          end).
Proof.
  intros w1 Hi Hc Hpc w.
  destruct (InvAt_run scr conv sch1 _ _ (InvAt_initial scr conv))
    as (ph1 & H1 & _). fold w1 in H1.
  set (wc := step (Cancel i) w1) in *.
  assert (InvAt scr conv ph1 wc) as Hc1 by now apply InvAt_requestCancel.
  assert (tasks wc !! i = Some (cancel t)) as Hic.
  { unfold wc. simpl. rewrite requestCancel_updateAt. simpl.
    now rewrite updateAt_lookup, decide_True, Hi by reflexivity. }
  assert (CancelledLate conv fmt (firstFile files) (cancel t)) as HP.
  { split; [reflexivity|]. left. exact Hpc. }
  destruct (InvAt_run scr conv sch2 _ _ Hc1) as (ph2 & H2 & _).
  destruct (drain_InvAt scr conv _ _ H2) as (ph3 & (_ & _ & Hfin) & _ & _).
  fold w in Hfin.
  destruct (CancelledLate_run scr conv
              (sch2 ++ settleAll (shared (run sch2 wc)) ++
               resumeAll (length (tasks (run sch2 wc))))
              _ _ _ _ _ _ Hc1 Hic Hc HP) as (t3 & Hi3 & _ & _ & HP3).
  rewrite run_app in Hi3. fold (drain (run sch2 wc)) in Hi3. fold w in Hi3.
  exists t3. split; [assumption|].
  specialize (Hfin _ _ Hi3). unfold finished in Hfin. unfold resultOf.
  destruct HP3 as [E | E]; rewrite E in *; [discriminate|].
  unfold lateVerdict. now destruct (conv (firstFile files)).
Qed.

Lemma X7_cancel_during_conversion_witness :
  let w1 := run [CallProcess Word [report_docx]; ImportResolves 0;
                 InitializeSettles 0; Resume 0]
                (initial [] healthy) in
  let w := drain (run [CallProcess RTF [notes_rtf]] (step (Cancel 0) w1)) in
  exists t',
    tasks w !! 0%nat = Some t' /\
    resultOf t' = Some (Error PROCESSING_CANCELLED cancelledMessage None).
Proof.
  eapply (X7_cancel_during_conversion [] healthy
            [CallProcess Word [report_docx]; ImportResolves 0;
             InitializeSettles 0; Resume 0]
            [CallProcess RTF [notes_rtf]] 0 _ Word [report_docx]);
    reflexivity.
Defined.

(** X8.  A result is final.  Once a call has finished, whatever runs later
    (a cancellation request for it included) changes neither its result nor
    the progress events it has emitted: no progress follows the result. *)
Theorem X8_results_are_final
  (scr : list InitBehaviour) (conv : File -> Blob + Thrown)
  (sch1 sch2 : list Action) (i : nat) (t : Task) :
  let w1 := run sch1 (initial scr conv) in
  tasks w1 !! i = Some t ->
  finished t = true ->
  exists t',
    tasks (run sch2 w1) !! i = Some t' /\
    caller t' = caller t /\ pc t' = pc t /\ sink t' = sink t.
Proof.
  intros w1 Hi Hf.
  destruct (InvAt_run scr conv sch1 _ _ (InvAt_initial scr conv))
    as (ph1 & H1 & _). fold w1 in H1.
  destruct (finished_run scr conv sch2 _ _ _ _ H1 Hi Hf) as (t' & Hi' & HS).
  exists t'. split; [assumption | exact HS].
Qed.

Lemma X8_results_are_final_witness :
  let w1 := drain (run [CallProcess Word [report_docx]] (initial [] healthy)) in
  exists t',
    tasks (run [Cancel 0; CallGetConverter; Resume 0] w1) !! 0%nat = Some t' /\
    resultOf t' = Some (Success "pdf of Report.DOCX" "Report.pdf" "pdf") /\
    length (sink t') = 3%nat.
Proof.
  intros w1.
  destruct (X8_results_are_final [] healthy
              ([CallProcess Word [report_docx]] ++
               settleAll (shared (run [CallProcess Word [report_docx]]
                                      (initial [] healthy))) ++
               resumeAll 1)
              [Cancel 0; CallGetConverter; Resume 0] 0 _ eq_refl eq_refl)
    as (t' & Hi & _ & Hpc & Hs).
  exists t'. split; [exact Hi|]. unfold resultOf. rewrite Hpc, Hs.
  split; reflexivity.
Defined.





(** * Bounds on the emitted percentages *)

Section Bounds.

Open Scope Q_scope.




Lemma trace_below_100 (l tl : list Q) :
  tl = [] \/ tl = [85] ->
  ~ Exists (fun p => p == 100) (5 :: map scalePercent l ++ tl).
Proof.
  intros Htl H. apply Exists_exists in H as (p & Hin & Hp).
  apply list_elem_of_In in Hin. simpl in Hin.
  destruct Hin as [<- | Hin]; [lra|].
  apply in_app_or in Hin as [Hin | Hin].
  - apply in_map_iff in Hin as (q & <- & _).
    pose proof (scalePercent_le_80 q). lra.
  - destruct Htl as [-> | ->]; simpl in Hin; [contradiction|].
    destruct Hin as [<- | []]. lra.
Qed.

End Bounds.

(** The sink of a process task, at every moment: nothing for a call that
    failed validation; otherwise 5, a scaled prefix of the engine's
    notifications, and then nothing, 85, or 85 and 100, the last exactly
    when the call has succeeded. *)
Lemma sink_shape scr conv ph n i t fmt files :
  phaseWf scr n ph ->
  TaskOk scr conv ph i t -> caller t = Processor fmt files ->
  (sink t = [] /\ ~ succeeded t) \/
  exists h rest tl,
    (h ++ rest)%list = reports (firstInit scr) /\
    sink t = loadingEvent :: map scaled h ++ tl /\
    ((tl = [] /\ ~ succeeded t) \/
     (tl = [convertingEvent fmt] /\ ~ succeeded t) \/
     (tl = [convertingEvent fmt; completeEvent] /\ succeeded t)).
Proof.
  intros Hwf Ht Hc.
  destruct (handed_prefix scr _ ph i Hwf) as (rest & Hrest).
  assert (forall out, (forall b nm, out <> Success b nm "pdf") ->
            forall cl cn sk,
              ~ succeeded (mkTask cl (ProcessFinished out) cn sk)) as Herr.
  { intros out Hout cl cn sk (b & nm & [= E]). eapply Hout; eauto. }
  assert (forall cl l cn sk,
            (forall out, l <> ProcessFinished out) ->
            ~ succeeded (mkTask cl l cn sk)) as Hrun.
  { intros cl l cn sk Hl (b & nm & E). unfold resultOf in E. simpl in E.
    destruct l; try discriminate. eapply Hl; eauto. }
  destruct Ht; simpl in Hc; try discriminate; injection Hc as -> <-; simpl sink;
    try (left; split; [reflexivity|]; apply Herr; intros; discriminate);
    right; exists (handed scr ph i), rest.
  - exists []. rewrite app_nil_r. repeat split; try assumption.
    left. split; [reflexivity|]. apply Hrun. intros; discriminate.
  - exists []. rewrite app_nil_r. repeat split; try assumption.
    left. split; [reflexivity|]. apply Herr. intros; discriminate.
  - exists []. rewrite app_nil_r. repeat split; try assumption.
    left. split; [reflexivity|]. apply Herr. intros; discriminate.
  - eexists. repeat split; try eassumption.
    right. left. split; [reflexivity|]. apply Hrun. intros; discriminate.
  - eexists. repeat split; try eassumption.
    right. left. split; [reflexivity|]. apply Herr. intros; discriminate.
  - eexists. repeat split; try eassumption.
    right. left. split; [reflexivity|]. apply Herr. intros; discriminate.
  - eexists. repeat split; try eassumption.
    right. right. split; [reflexivity|]. eexists. eexists. reflexivity.
Qed.

Lemma percents_shape (fmt : Format) (h tl : list ProgressEvent) :
  tl = [] \/ tl = [convertingEvent fmt] \/
  tl = [convertingEvent fmt; completeEvent] ->
  map percent (loadingEvent :: map scaled h ++ tl) =
  5%Q :: map scalePercent (map percent h) ++ map percent tl /\
  mark (map percent tl).
Proof.
  intros Htl. split; [apply percents_of_sink|].
  destruct Htl as [-> | [-> | ->]]; unfold mark; simpl; auto.
Qed.



(** X11.  A [process] call has emitted 100 percent exactly when it has
    returned [Success], at every moment of every schedule: no failed,
    cancelled or unfinished call shows 100, whatever the engine reports. *)
Theorem X11_complete_iff_success
  (scr : list InitBehaviour) (conv : File -> Blob + Thrown)
  (sch : list Action) (fmt : Format) (files : list File) (i : nat) (t : Task) :
  tasks (run sch (initial scr conv)) !! i = Some t ->
  caller t = Processor fmt files ->
  Exists (fun p => p == 100)%Q (percents t) <-> succeeded t.
Proof.
  intros Hi Hc.
  destruct (InvAt_run scr conv sch _ _ (InvAt_initial scr conv))
    as (ph & (_ & Hwf & Hts) & _).
  destruct (sink_shape _ _ _ _ _ _ _ _ Hwf (Hts _ _ Hi) Hc)
    as [[Hs Hn] | (h & rest & tl & Hh & Hs & Htl)]; unfold percents; rewrite Hs.
  - split; [intros H; inversion H | tauto].
  - assert (tl = [] \/ tl = [convertingEvent fmt] \/
            tl = [convertingEvent fmt; completeEvent]) as Htl' by tauto.
    destruct (percents_shape fmt h tl Htl') as [-> _].
    destruct Htl as [[-> Hn] | [[-> Hn] | [-> Hy]]].
    + split; [|tauto]. intros H. exfalso.
      eapply trace_below_100; [|exact H]. now left.
    + split; [|tauto]. intros H. exfalso.
      eapply trace_below_100; [|exact H]. now right.
    + split; [tauto|]. intros _. apply Exists_exists. exists 100%Q.
      split; [|reflexivity]. apply list_elem_of_In. simpl. right.
      apply in_or_app. right. simpl. auto.
Qed.

Lemma X11_complete_iff_success_witness :
  exists t,
    tasks (drain (run [CallProcess Word [report_docx]]
                      (initial [mkInit [halfway] Fulfilled] corrupt)))
      !! 0%nat = Some t /\
    ~ Exists (fun p => p == 100)%Q (percents t).
Proof.
  eexists. split; [reflexivity|].
  intros H.
  apply (X11_complete_iff_success
           [mkInit [halfway] Fulfilled] corrupt
           ([CallProcess Word [report_docx]] ++
            settleAll (shared (run [CallProcess Word [report_docx]]
                                   (initial [mkInit [halfway] Fulfilled] corrupt))) ++
            resumeAll 1)
           Word [report_docx] 0 _ eq_refl eq_refl) in H.
  destruct H as (b & n & H). vm_compute in H. discriminate.
Defined.

(** * The convenience functions *)

(** X12.  A conversion started through [pptxToPDF], [wordToPDF] or
    [rtfToPDF] hands over exactly one file, and keeps its processor to
    itself, so that nobody can cancel it.  Such a call never returns
    [INVALID_OPTIONS] nor [PROCESSING_CANCELLED]: under every schedule
    without a cancellation request for it, it ends with
    [FILE_TYPE_INVALID], with [PROCESSING_FAILED], or with [Success] and
    the suggested name of its file. *)
Theorem X12_convenience_functions
  (scr : list InitBehaviour) (conv : File -> Blob + Thrown)
  (sch1 sch2 : list Action) (fmt : Format) (file : File) :
  let w1 := run sch1 (initial scr conv) in
  let n := length (tasks w1) in
  Forall (fun a => isCancelOf n a = false) sch2 ->
  let w := drain (run sch2 (toPDF fmt file w1)) in
  exists t out,
    tasks w !! n = Some t /\ resultOf t = Some out /\
    (out = Error FILE_TYPE_INVALID (wrongTypeMessage fmt)
             (Some (receivedDetail file)) \/
     (exists e, out = Error PROCESSING_FAILED (failedMessage fmt)
                        (Some (detailOf e))) \/
     (exists blob, out = Success blob (suggestedName fmt file) "pdf")).
Proof.
  intros w1 n Hnc w.
  assert (toPDF fmt file w1 = step (CallProcess fmt [file]) w1) as E
    by now destruct fmt.
  destruct (InvAt_run scr conv sch1 _ _ (InvAt_initial scr conv))
    as (ph1 & H1 & _). fold w1 in H1.
  destruct (drain_run scr conv _ _ (CallProcess fmt [file] :: sch2) H1)
    as (ph & HD & _).
  simpl run in HD. change (process fmt [file] w1)
    with (step (CallProcess fmt [file]) w1) in HD.
  rewrite <- E in HD. fold w in HD.
  assert (exists t0, tasks (toPDF fmt file w1) !! n = Some t0 /\
                     caller t0 = Processor fmt [file] /\
                     cancelled t0 = false) as (t0 & Hi0 & Hc0 & Hf0).
  { rewrite E. simpl. unfold process. simpl.
    destruct (negb _); simpl.
    - eexists. rewrite lookup_app_r by reflexivity.
      unfold n. rewrite Nat.sub_diag. simpl. eauto.
    - destruct (getConverter _ _). simpl.
      eexists. rewrite lookup_app_r by reflexivity.
      unfold n. rewrite Nat.sub_diag. simpl. eauto. }
  destruct (cancelled_run
              (sch2 ++ settleAll (shared (run sch2 (toPDF fmt file w1))) ++
               resumeAll (length (tasks (run sch2 (toPDF fmt file w1)))))
              _ _ _
              (proj2 (Forall_app _ _ _)
                     (conj Hnc (no_cancel_in_drain n _ _))) Hi0)
    as (t & Hi & Hcn).
  rewrite run_app in Hi. fold (drain (run sch2 (toPDF fmt file w1))) in Hi.
  fold w in Hi.
  assert (caller t = Processor fmt [file]) as Hc.
  { assert (callers w = callers (toPDF fmt file w1) ++ flat_map issued sch2)
      as Hcs by (unfold w; now rewrite callers_drain, callers_run).
    destruct (caller_kept _ _ _ _ _ Hcs Hi0) as (t' & Hi' & Hc').
    rewrite Hi in Hi'. injection Hi' as <-. congruence. }
  destruct (drained_verdict _ _ _ _ _ _ _ _ HD Hi Hc) as (out & Hpc & Hv).
  exists t, out. split; [assumption|].
  split; [unfold resultOf; now rewrite Hpc|].
  rewrite Hcn, Hf0 in Hv.
  inversion Hv; subst; simpl in *; try lia; unfold wrongType, processingFailed,
    createErrorOutput, createSuccessOutput; eauto.
Qed.

Lemma X12_convenience_functions_witness :
  let w1 := run [CallGetConverter] (initial [] healthy) in
  let w := drain (run [Cancel 0; ImportResolves 0] (toPDF RTF notes_rtf w1)) in
  exists t out,
    tasks w !! 1%nat = Some t /\ resultOf t = Some out /\
    (out = Error FILE_TYPE_INVALID (wrongTypeMessage RTF)
             (Some (receivedDetail notes_rtf)) \/
     (exists e, out = Error PROCESSING_FAILED (failedMessage RTF)
                        (Some (detailOf e))) \/
     (exists blob, out = Success blob (suggestedName RTF notes_rtf) "pdf")).
Proof.
  apply (X12_convenience_functions [] healthy [CallGetConverter]
           [Cancel 0; ImportResolves 0] RTF notes_rtf).
  repeat constructor.
Defined.
